(** * improved_plex_mapper.py: path resolution and timestamp reconciliation

    A shallow embedding of the path mapper, the reconciliation pass, the CSV
    snapshot export/import and the database writer of
    [src/improved_plex_mapper.py], followed by the properties of the
    specification that were checked against it.

    Modelling conventions:
    - Python [str] is [string]; a character is a code point below 256.
    - Python [int] is [Z].
    - A [datetime] is its number of whole epoch seconds ([Z]); sub-second
      fractions are floating point and are left out.
    - An exception is a value of [exn]; code that may raise returns
      [result].
    - A [dict] used as a map keeps its insertion order ([pydict]); the
      set built by a set comprehension is a [gset]; file systems and
      database tables are [gmap]s. *)

From Stdlib Require Import ZArith Ascii String List Lia Bool.
From Stdlib Require Import Decimal DecimalString DecimalZ DecimalPos DecimalN.
From stdpp Require Import base option list gmap strings sorting.

Local Open Scope Z_scope.

(** ** Exceptions and the error monad *)

Inductive exn : Set :=
  | ValueError          (* also stands for the OSError of datetime/stat *)
  | OverflowError
  | KeyError
  | FileNotFoundError
  | SameFileError
  | AttributeError
  | DatabaseError.      (* sqlite3.Error *)

Inductive result (A : Type) : Type :=
  | Ok (a : A)
  | Raise (e : exn).
Arguments Ok {A} a.
Arguments Raise {A} e.

#[export] Instance result_ret : MRet result := @Ok.
#[export] Instance result_bind : MBind result := fun A B f m =>
  match m with
  | Ok a => f a
  | Raise e => Raise e
  end.

#[export] Instance result_fmap : FMap result := fun A B f m =>
  match m with
  | Ok a => Ok (f a)
  | Raise e => Raise e
  end.

Definition is_ok {A} (r : result A) : bool :=
  match r with Ok _ => true | Raise _ => false end.

(** ** Python strings *)

Definition code (c : ascii) : Z := Z.of_N (N_of_ascii c).

(** [str.isspace] on one character, for code points below 256. *)
Definition is_space (c : ascii) : bool :=
  let n := code c in
  ((9 <=? n) && (n <=? 13)) || ((28 <=? n) && (n <=? 32))
  || (n =? 133) || (n =? 160).

Fixpoint lstrip (s : string) : string :=
  match s with
  | EmptyString => EmptyString
  | String c r => if is_space c then lstrip r else s
  end.

Fixpoint rstrip (s : string) : string :=
  match s with
  | EmptyString => EmptyString
  | String c r =>
      match rstrip r with
      | EmptyString => if is_space c then EmptyString else String c EmptyString
      | r' => String c r'
      end
  end.

(** [s.strip()] *)
Definition strip (s : string) : string := rstrip (lstrip s).

(** [s.startswith(p)] *)
Fixpoint startswith (s p : string) {struct p} : bool :=
  match p, s with
  | EmptyString, _ => true
  | String _ _, EmptyString => false
  | String a p', String b s' => Ascii.eqb a b && startswith s' p'
  end.

Fixpoint string_drop (n : nat) (s : string) : string :=
  match n, s with
  | O, _ => s
  | S _, EmptyString => EmptyString
  | S n', String _ r => string_drop n' r
  end.

(** [s.replace(old, new, 1)]: the leftmost occurrence of [old] is searched
    from the left and replaced; without an occurrence [s] is returned. *)
Fixpoint replace1 (s old new : string) {struct s} : string :=
  if startswith s old then new +:+ string_drop (String.length old) s
  else match s with
       | EmptyString => EmptyString
       | String c r => String c (replace1 r old new)
       end.

(** [s.split(",", 1)]: [None] when there is no separator (one part),
    otherwise the text before and after the first separator. *)
Fixpoint split_once (sep : ascii) (s : string) : option (string * string) :=
  match s with
  | EmptyString => None
  | String c r =>
      if Ascii.eqb c sep then Some (EmptyString, r)
      else match split_once sep r with
           | Some (a, b) => Some (String c a, b)
           | None => None
           end
  end.

(** [s.split(sep)] *)
Fixpoint split_all (sep : ascii) (s : string) : list string :=
  match s with
  | EmptyString => [EmptyString]
  | String c r =>
      if Ascii.eqb c sep then EmptyString :: split_all sep r
      else match split_all sep r with
           | [] => [String c EmptyString]
           | x :: xs => String c x :: xs
           end
  end.

(** [sep.join(parts)] *)
Fixpoint join (sep : string) (parts : list string) : string :=
  match parts with
  | [] => EmptyString
  | [x] => x
  | x :: rest => x +:+ sep +:+ join sep rest
  end.

(** *** [int(s)] and [str(n)] *)

(** The characters [int()] skips around a number: C [isspace] plus the
    two non-ASCII spaces below 256. *)
Definition is_int_space (c : ascii) : bool :=
  let n := code c in
  ((9 <=? n) && (n <=? 13)) || (n =? 32) || (n =? 133) || (n =? 160).

Fixpoint lstrip_int (s : string) : string :=
  match s with
  | EmptyString => EmptyString
  | String c r => if is_int_space c then lstrip_int r else s
  end.

Fixpoint rstrip_int (s : string) : string :=
  match s with
  | EmptyString => EmptyString
  | String c r =>
      match rstrip_int r with
      | EmptyString => if is_int_space c then EmptyString else String c EmptyString
      | r' => String c r'
      end
  end.

Definition digit_value (c : ascii) : option Z :=
  let n := code c in
  if (48 <=? n) && (n <=? 57) then Some (n - 48) else None.

(** Digits with single underscores between them; [prev] tells whether the
    previous character was a digit. *)
Fixpoint int_digits (s : string) (prev : bool) (acc : Z) : option Z :=
  match s with
  | EmptyString => if prev then Some acc else None
  | String c r =>
      match digit_value c with
      | Some d => int_digits r true (10 * acc + d)
      | None =>
          if Ascii.eqb c "_" && prev then int_digits r false acc else None
      end
  end.

(** [int(s)] in base 10; a malformed literal raises [ValueError]. *)
Definition py_int (s : string) : result Z :=
  let body := rstrip_int (lstrip_int s) in
  let parsed :=
    match body with
    | String "-" r => Z.opp <$> int_digits r false 0
    | String "+" r => int_digits r false 0
    | _ => int_digits body false 0
    end in
  match parsed with
  | Some z => Ok z
  | None => Raise ValueError
  end.

(** [str(n)] *)
Definition py_str_int (z : Z) : string := NilZero.string_of_int (Z.to_int z).


(** ** datetime *)

(** The clock of one run: [datetime.now().year] and the local time zone as
    a fixed offset from UTC in seconds. *)
Record clock : Type := { current_year : Z; utc_offset : Z }.

(** Proleptic Gregorian date (year, month, day) of a day number counted
    from 1970-01-01. *)
Definition civil_from_days (days : Z) : Z * Z * Z :=
  let z := days + 719468 in
  let era := z / 146097 in
  let doe := z - era * 146097 in
  let yoe := (doe - doe / 1460 + doe / 36524 - doe / 146096) / 365 in
  let y := yoe + era * 400 in
  let doy := doe - (365 * yoe + yoe / 4 - yoe / 100) in
  let mp := (5 * doy + 2) / 153 in
  let d := doy - (153 * mp + 2) / 5 + 1 in
  let m := if mp <? 10 then mp + 3 else mp - 9 in
  (if m <=? 2 then y + 1 else y, m, d).

(** [dt.year] of the local datetime at epoch second [dt]. *)
Definition datetime_year (clk : clock) (dt : Z) : Z :=
  (civil_from_days ((dt + utc_offset clk) / 86400)).1.1.

(** [datetime.fromtimestamp(ts)] for an integer [ts]: [OverflowError]
    outside the platform [time_t], [ValueError] (or [OSError], handled
    alike everywhere) when the year leaves 1..9999. *)
Definition datetime_fromtimestamp (clk : clock) (ts : Z) : result Z :=
  if (ts <? - 2 ^ 63) || (2 ^ 63 <=? ts) then Raise OverflowError
  else
    let y := datetime_year clk ts in
    if (1 <=? y) && (y <=? 9999) then Ok ts else Raise ValueError.

(** [datetime.min], used as the sort key of a missing value. *)
Definition datetime_min : Z := -62135596800.

Definition pad_digits (width : nat) (n : Z) : string :=
  let s := py_str_int n in
  String.concat EmptyString (replicate (width - String.length s) "0") +:+ s.

(** [dt.isoformat()] (whole seconds). *)
Definition isoformat (clk : clock) (dt : Z) : string :=
  let w := dt + utc_offset clk in
  let '(y, m, d) := civil_from_days (w / 86400) in
  let s := w mod 86400 in
  pad_digits 4 y +:+ "-" +:+ pad_digits 2 m +:+ "-" +:+ pad_digits 2 d +:+ "T"
  +:+ pad_digits 2 (s / 3600) +:+ ":" +:+ pad_digits 2 (s mod 3600 / 60)
  +:+ ":" +:+ pad_digits 2 (s mod 60).

(** The validity test shared by the import and the writer:
    [dt.year > current_year + 1 or dt.year < 1970] means invalid. *)
Definition year_invalid (clk : clock) (dt : Z) : bool :=
  (current_year clk + 1 <? datetime_year clk dt) || (datetime_year clk dt <? 1970).

(** ** PlexPathMapper *)

Record PlexPathMapper : Type := { path_mappings : list (string * string) }.

(** The configuration file as [_load_mappings_from_file] sees it: [None]
    when [os.path.exists] is false, otherwise the lines that iterating
    the open file yields. *)
Definition config_file : Type := option (list string).

(** One line of the configuration file: [None] when the line is skipped. *)
Definition parse_mapping_line (line : string) : option (string * string) :=
  let line := strip line in
  if decide (line = EmptyString) then None
  else if startswith line "#" then None
  else match split_once "," line with
       | Some (a, b) => Some (strip a, strip b)
       | None => None
       end.

Definition _load_mappings_from_file (cfg : config_file) : list (string * string) :=
  match cfg with
  | None => []
  | Some lines => omap parse_mapping_line lines
  end.

(** [PlexPathMapper.__init__] *)
Definition PlexPathMapper_init (mappings : option (list (string * string)))
    (cfg : config_file) : result PlexPathMapper :=
  match mappings with
  | Some pm => Ok {| path_mappings := pm |}
  | None =>
      let pm := _load_mappings_from_file cfg in
      match pm with
      | [] => Raise ValueError
      | _ => Ok {| path_mappings := pm |}
      end
  end.

(** The [for old_prefix, new_prefix in self.path_mappings] loop. *)
Fixpoint apply_mappings (rules : list (string * string)) (p : string) : string :=
  match rules with
  | [] => p
  | (old_prefix, new_prefix) :: rest =>
      if startswith p old_prefix then replace1 p old_prefix new_prefix
      else apply_mappings rest p
  end.

Definition map_path (self : PlexPathMapper) (plex_path : string) : string :=
  if decide (plex_path = EmptyString) then plex_path
  else apply_mappings (path_mappings self) (strip plex_path).

(** [str(Path(p))] for a POSIX path: the root is kept (two leading slashes
    stay two, any other number becomes one), empty and [.] components are
    dropped, and the empty result is written [.]. *)
Fixpoint lstrip_slash (s : string) : string :=
  match s with
  | String "/" r => lstrip_slash r
  | _ => s
  end.

Definition path_root (p : string) : string :=
  let n := (String.length p - String.length (lstrip_slash p))%nat in
  match n with
  | O => EmptyString
  | 2%nat => "//"
  | _ => "/"
  end.

Definition path_component (x : string) : bool :=
  negb (String.eqb x EmptyString) && negb (String.eqb x ".").

Definition path_str (p : string) : string :=
  let s := path_root p
           +:+ join "/" (List.filter path_component (split_all "/" (lstrip_slash p))) in
  if decide (s = EmptyString) then "." else s.

(** The media file system as the probe sees it. A regular file carries
    what [stat] gives for [st_mtime] in epoch seconds, or [None] when
    [stat] raises [OSError]. *)
Inductive fnode : Type :=
  | Directory
  | RegularFile (st_mtime : option Z).

Definition is_file (fs : gmap string fnode) (p : string) : bool :=
  match fs !! p with
  | Some (RegularFile _) => true
  | _ => false
  end.

(** [try: mtime = datetime.fromtimestamp(path.stat().st_mtime)
     except (OSError, ValueError): ...]: the datetime, or [None] when the
    handler is entered. [st_mtime] is a C [time_t], for which
    [fromtimestamp] has no [OverflowError]. *)
Definition read_mtime (clk : clock) (fs : gmap string fnode) (p : string) : option Z :=
  match fs !! p with
  | Some (RegularFile (Some st)) =>
      match datetime_fromtimestamp clk st with
      | Ok dt => Some dt
      | Raise _ => None
      end
  | _ => None
  end.

(** One [if path.is_file(): try: ... except ...] block: the modification
    time when the block returns, [None] when control falls out of it. *)
Definition probe (clk : clock) (fs : gmap string fnode) (p : string) : option Z :=
  if is_file fs (path_str p) then read_mtime clk fs (path_str p) else None.

Definition get_file_info (clk : clock) (self : PlexPathMapper)
    (fs : gmap string fnode) (plex_path : string)
    : option Z * option string * bool :=
  if decide (plex_path = EmptyString) then (None, None, false)
  else
    match probe clk fs plex_path with
    | Some mtime => (Some mtime, Some (path_str plex_path), true)
    | None =>
        let mapped_path := map_path self plex_path in
        if decide (mapped_path <> plex_path) then
          match probe clk fs mapped_path with
          | Some mtime => (Some mtime, Some mapped_path, true)
          | None => (None, None, false)
          end
        else (None, None, false)
    end.

(** ** The catalog *)

(** A value read from a column (REAL values are left out). *)
Inductive sqlval : Type :=
  | SqlNull
  | SqlInt (z : Z)
  | SqlText (s : string).

(** One row of [metadata_items JOIN media_items JOIN media_parts], with
    the columns the program reads. The catalog is the list of these rows in
    the order [ORDER BY metadata_items.updated_at DESC] returns them; both
    queries of the program select from it with their own [WHERE]. *)
Record join_row : Type := {
  r_id : Z;
  r_title : option string;
  r_added_at : sqlval;
  r_created_at : sqlval;
  r_updated_at : sqlval;
  r_library_section_id : sqlval;
  r_file : option string
}.

(** [media_parts.file IS NOT NULL AND LENGTH(media_parts.file) > 0] *)
Definition has_file (r : join_row) : bool :=
  match r_file r with
  | Some f => negb (String.eqb f EmptyString)
  | None => false
  end.

Definition file_path_of (r : join_row) : string := default EmptyString (r_file r).

(** The query of [get_recent_media]. *)
Definition recent_media_query (catalog : list join_row) : list join_row :=
  List.filter (fun r => bool_decide (is_Some (r_title r)) && has_file r) catalog.

(** The query of [export_full_media_data_to_csv]: no [LIMIT] clause when
    [limit] is falsy, and a negative [LIMIT] is no limit in SQLite. *)
Definition export_query (catalog : list join_row) (limit : option Z) : list join_row :=
  let rows := List.filter has_file catalog in
  match limit with
  | None => rows
  | Some n => if n <=? 0 then rows else take (Z.to_nat n) rows
  end.

(** ** Reconciliation: get_recent_media *)

Record entry : Type := {
  item_id : Z;
  title : string;
  library_section_id : sqlval;
  added_at : option Z;
  created_at : option Z;
  updated_at : option Z;
  plex_path : string;
  actual_path : option string;
  file_mtime : option Z;
  file_exists : bool;
  path_mapped : bool
}.

(** [if isinstance(timestamp, (int, float)) and timestamp > 0:
       entry[field_name] = datetime.fromtimestamp(timestamp)] *)
Definition convert_timestamp (clk : clock) (v : sqlval) : result (option Z) :=
  match v with
  | SqlInt z => if 0 <? z then Some <$> datetime_fromtimestamp clk z else Ok None
  | _ => Ok None
  end.

Definition _create_entry (clk : clock) (r : join_row) : result entry :=
  a ← convert_timestamp clk (r_added_at r);
  c ← convert_timestamp clk (r_created_at r);
  u ← convert_timestamp clk (r_updated_at r);
  Ok {| item_id := r_id r;
        title := default EmptyString (r_title r);
        library_section_id := r_library_section_id r;
        added_at := a; created_at := c; updated_at := u;
        plex_path := file_path_of r;
        actual_path := None; file_mtime := None;
        file_exists := false; path_mapped := false |}.

(** The body of the loop over the rows, on one row. *)
Definition reconcile_row (clk : clock) (mapper : PlexPathMapper)
    (fs : gmap string fnode) (r : join_row)
    (acc : list entry * list (Z * Z)) : result (list entry * list (Z * Z)) :=
  e ← _create_entry clk r;
  let '(mtime, actual, exists_) := get_file_info clk mapper fs (file_path_of r) in
  if exists_ then
    match mtime with
    | Some t =>
        let e' := {| item_id := item_id e; title := title e;
                     library_section_id := library_section_id e;
                     added_at := added_at e; created_at := created_at e;
                     updated_at := updated_at e; plex_path := plex_path e;
                     actual_path := actual; file_mtime := Some t;
                     file_exists := true;
                     path_mapped := bool_decide (actual <> Some (file_path_of r)) |} in
        Ok (acc.1 ++ [e'], acc.2 ++ [(t, r_id r)])
    | None => Raise AttributeError   (* None.timestamp() *)
    end
  else Ok (acc.1 ++ [e], acc.2).

Fixpoint reconcile_rows (clk : clock) (mapper : PlexPathMapper)
    (fs : gmap string fnode) (rows : list join_row)
    (acc : list entry * list (Z * Z)) : result (list entry * list (Z * Z)) :=
  match rows with
  | [] => Ok acc
  | r :: rest =>
      acc' ← reconcile_row clk mapper fs r acc;
      reconcile_rows clk mapper fs rest acc'
  end.

(** [sorted(entries, key=..., reverse=True)]: stable, descending. *)
Fixpoint insert_desc {A} (key : A -> Z) (x : A) (l : list A) : list A :=
  match l with
  | [] => [x]
  | y :: l' => if key y <=? key x then x :: l else y :: insert_desc key x l'
  end.

Fixpoint sorted_desc {A} (key : A -> Z) (l : list A) : list A :=
  match l with
  | [] => []
  | x :: l' => insert_desc key x (sorted_desc key l')
  end.

(** [x[field] or datetime.min] *)
Definition or_min (o : option Z) : Z := default datetime_min o.

Definition _sort_entries (entries : list entry) (sort_by : string) : list entry :=
  if String.eqb sort_by "file_mtime" then
    sorted_desc (fun x => or_min (file_mtime x)) entries
  else if String.eqb sort_by "added_at" then
    sorted_desc (fun x => or_min (added_at x)) entries
  else if String.eqb sort_by "created_at" then
    sorted_desc (fun x => or_min (created_at x)) entries
  else if String.eqb sort_by "updated_at" then
    sorted_desc (fun x => or_min (updated_at x)) entries
  else entries.

(** [l[:limit]] for an integer [limit]: a negative bound counts from the
    end of the list. *)
Definition slice_to {A} (l : list A) (limit : Z) : list A :=
  if 0 <=? limit then take (Z.to_nat limit) l
  else take (length l - Z.to_nat (- limit)) l.

Definition get_recent_media (clk : clock) (mapper : PlexPathMapper)
    (fs : gmap string fnode) (catalog : list join_row)
    (limit : Z) (sort_by : string) : result (list entry * list (Z * Z)) :=
  let rows := recent_media_query catalog in
  '(entries, updates) ← reconcile_rows clk mapper fs rows ([], []);
  let entries := _sort_entries entries sort_by in
  let entries := slice_to entries limit in
  let limited_item_ids : gset Z := list_to_set (item_id <$> entries) in
  let updates :=
    List.filter (fun u => bool_decide (u.2 ∈ limited_item_ids)) updates in
  Ok (entries, updates).

(** ** The CSV snapshot *)

(** A row as [csv.DictWriter] receives it and [csv.DictReader] yields it:
    column name and cell text, in column order. A cell that
    [DictReader] leaves [None] is an absent column. *)
Definition csv_row : Type := list (string * string).

(** [row.get(name)] *)
Fixpoint row_get (row : csv_row) (name : string) : option string :=
  match row with
  | [] => None
  | (k, v) :: rest => if String.eqb k name then Some v else row_get rest name
  end.

(** The text the writer puts in a cell: [None] is the empty cell. *)
Definition csv_cell (v : sqlval) : string :=
  match v with
  | SqlNull => EmptyString
  | SqlInt z => py_str_int z
  | SqlText s => s
  end.

(** The body of the export loop: the row written for one query row. Of
    the catalog columns only those of [join_row] are kept. *)
Definition export_row (clk : clock) (mapper : PlexPathMapper)
    (fs : gmap string fnode) (r : join_row) : csv_row :=
  let original_path := file_path_of r in
  let '(mtime, actual, exists_) := get_file_info clk mapper fs original_path in
  [ ("id", py_str_int (r_id r));
    ("title", default EmptyString (r_title r));
    ("added_at", csv_cell (r_added_at r));
    ("created_at", csv_cell (r_created_at r));
    ("updated_at", csv_cell (r_updated_at r));
    ("library_section_id", csv_cell (r_library_section_id r));
    ("original_file_path", original_path);
    ("file_exists", if exists_ then "true" else "false");
    ("actual_file_path", default EmptyString actual);
    ("file_mtime", from_option (isoformat clk) EmptyString mtime);
    ("file_mtime_timestamp", from_option py_str_int EmptyString mtime);
    ("path_was_mapped",
      if bool_decide (actual <> Some original_path) then "true" else "false");
    ("new_updated_at",
      match exists_, mtime with
      | true, Some t => py_str_int t
      | _, _ => csv_cell (r_updated_at r)
      end) ].

(** The rows [export_full_media_data_to_csv] writes. *)
Definition export_full_media_data_to_csv (clk : clock) (mapper : PlexPathMapper)
    (fs : gmap string fnode) (catalog : list join_row) (limit : option Z)
    : list csv_row :=
  export_row clk mapper fs <$> export_query catalog limit.

(** An insertion-ordered [dict] from record id to timestamp. *)
Definition pydict : Type := list (Z * Z).

(** [d[k] = v] *)
Fixpoint dict_set (k v : Z) (d : pydict) : pydict :=
  match d with
  | [] => [(k, v)]
  | (k', v') :: rest =>
      if k =? k' then (k, v) :: rest else (k', v') :: dict_set k v rest
  end.

Fixpoint dict_get (k : Z) (d : pydict) : option Z :=
  match d with
  | [] => None
  | (k', v') :: rest => if k =? k' then Some v' else dict_get k rest
  end.

(** The gate [row.get('file_exists') == 'true' and row.get('new_updated_at')]. *)
Definition row_gate (row : csv_row) : bool :=
  match row_get row "file_exists", row_get row "new_updated_at" with
  | Some fe, Some nu => String.eqb fe "true" && negb (String.eqb nu EmptyString)
  | _, _ => false
  end.

(** [row['id']] *)
Definition row_item (row : csv_row) (name : string) : result string :=
  match row_get row name with
  | Some v => Ok v
  | None => Raise KeyError
  end.

(** The body of the import loop on one row; [Ok updates] unchanged is the
    [continue] (or the failed gate), [Raise] leaves the loop. *)
Definition import_row (clk : clock) (fix_invalid_dates : bool) (row : csv_row)
    (updates : pydict) : result pydict :=
  if row_gate row then
    id_text ← row_item row "id";
    metadata_id ← py_int id_text;
    ts_text ← row_item row "new_updated_at";
    new_timestamp ← py_int ts_text;
    if fix_invalid_dates then
      match datetime_fromtimestamp clk new_timestamp with
      | Ok dt =>
          if year_invalid clk dt then Ok updates
          else Ok (dict_set metadata_id new_timestamp updates)
      | Raise ValueError => Ok updates
      | Raise e => Raise e
      end
    else Ok (dict_set metadata_id new_timestamp updates)
  else Ok updates.

Fixpoint import_rows (clk : clock) (fix_invalid_dates : bool)
    (rows : list csv_row) (updates : pydict) : result pydict :=
  match rows with
  | [] => Ok updates
  | row :: rest =>
      updates' ← import_row clk fix_invalid_dates row updates;
      import_rows clk fix_invalid_dates rest updates'
  end.

(** ** Database files *)

(** A database: the [updated_at] column of [metadata_items] by id
    ([None] when the table does not exist) and everything else. *)
Record database : Type := {
  metadata_items : option (gmap Z sqlval);
  other_content : string
}.

Inductive file_content : Type :=
  | NotSqlite (bytes : string)
  | Sqlite (db : database).

Definition empty_database : database :=
  {| metadata_items := None; other_content := EmptyString |}.

(** [shutil.copy2(src, dst)]; a path names one file. *)
Definition copy2 (files : gmap string file_content) (src dst : string)
    : result (gmap string file_content) :=
  match files !! src with
  | None => Raise FileNotFoundError
  | Some c => if decide (src = dst) then Raise SameFileError
              else Ok (<[dst := c]> files)
  end.

(** [sqlite3.connect(path)] followed by the three PRAGMA statements: a
    missing file is created empty; a file that is no database makes the
    first statement raise. *)
Definition connect (files : gmap string file_content) (path : string)
    : gmap string file_content * result database :=
  match files !! path with
  | None => (<[path := Sqlite empty_database]> files, Ok empty_database)
  | Some (Sqlite db) => (files, Ok db)
  | Some (NotSqlite _) => (files, Raise DatabaseError)
  end.

(** [UPDATE metadata_items SET updated_at = ? WHERE id = ?] *)
Definition execute_update (db : database) (ts id : Z) : result database :=
  match metadata_items db with
  | None => Raise DatabaseError
  | Some tbl =>
      Ok {| metadata_items := Some (alter (fun _ => SqlInt ts) id tbl);
            other_content := other_content db |}
  end.

(** [conn.commit()] *)
Definition commit (files : gmap string file_content) (path : string)
    (db : database) : gmap string file_content :=
  <[path := Sqlite db]> files.

(** ** create_db_from_csv *)

(** The loop over [updates.items()]. *)
Fixpoint apply_items (items : pydict) (db : database) (successful_updates : Z)
    : database * Z :=
  match items with
  | [] => (db, successful_updates)
  | (metadata_id, new_timestamp) :: rest =>
      match execute_update db new_timestamp metadata_id with
      | Ok db' => apply_items rest db' (successful_updates + 1)
      | Raise _ => apply_items rest db successful_updates
      end
  end.

(** [csv] is [None] when the CSV file cannot be opened. The result is the
    returned flag and the files after the call. *)
Definition create_db_from_csv (clk : clock) (files : gmap string file_content)
    (csv : option (list csv_row)) (template_db_path output_db_path : string)
    (fix_invalid_dates : bool) : bool * gmap string file_content :=
  match copy2 files template_db_path output_db_path with
  | Raise _ => (false, files)
  | Ok files1 =>
      match csv with
      | None => (false, files1)
      | Some rows =>
          match import_rows clk fix_invalid_dates rows [] with
          | Raise _ => (false, files1)
          | Ok [] => (false, files1)
          | Ok updates =>
              match connect files1 output_db_path with
              | (files2, Raise _) => (false, files2)
              | (files2, Ok db) =>
                  let '(db', successful_updates) := apply_items updates db 0 in
                  (0 <? successful_updates, commit files2 output_db_path db')
              end
          end
      end
  end.

(** ** update_database_copy *)

(** The Plex SQLite binary, an external program: whether it was found, and
    what running its [.backup] command on a source and a destination path
    does: the content it leaves at the destination ([None] when it writes
    nothing) and its return code. It writes no other file. *)
Record backup_tool : Type := {
  plex_sqlite_found : bool;
  run_backup : gmap string file_content -> string -> string ->
               option file_content * Z
}.

(** The copy step: the tool first when it was found, [copy2] when it was
    not found or returned a non-zero code. The second component is the
    files when the step raises. *)
Definition copy_database (tool : backup_tool) (files : gmap string file_content)
    (db_path output_path : string)
    : result (gmap string file_content) * gmap string file_content :=
  if plex_sqlite_found tool then
    let '(written, returncode) := run_backup tool files db_path output_path in
    let files1 := match written with
                  | Some c => <[output_path := c]> files
                  | None => files
                  end in
    if decide (returncode <> 0) then (copy2 files1 db_path output_path, files1)
    else (Ok files1, files1)
  else (copy2 files db_path output_path, files).

(** The loop over [updates], a list of [(mtime, item_id)]. *)
Fixpoint write_updates (clk : clock) (fix_invalid_dates : bool)
    (updates : list (Z * Z)) (db : database) (successful_updates : Z)
    : result (database * Z) :=
  match updates with
  | [] => Ok (db, successful_updates)
  | (mtime, item_id) :: rest =>
      skip ← (if fix_invalid_dates then
                mtime_dt ← datetime_fromtimestamp clk mtime;
                Ok (year_invalid clk mtime_dt)
              else Ok false);
      if skip : bool then write_updates clk fix_invalid_dates rest db successful_updates
      else
        match execute_update db mtime item_id with
        | Ok db' =>
            write_updates clk fix_invalid_dates rest db' (successful_updates + 1)
        | Raise _ =>
            write_updates clk fix_invalid_dates rest db successful_updates
        end
  end.

Definition update_database_copy (clk : clock) (tool : backup_tool)
    (files : gmap string file_content) (db_path : string)
    (updates : list (Z * Z)) (output_path : string) (fix_invalid_dates : bool)
    : bool * gmap string file_content :=
  match copy_database tool files db_path output_path with
  | (Raise _, files1) => (false, files1)
  | (Ok files1, _) =>
      match connect files1 output_path with
      | (files2, Raise _) => (false, files2)
      | (files2, Ok db) =>
          match write_updates clk fix_invalid_dates updates db 0 with
          | Raise _ => (false, files2)
          | Ok (db', successful_updates) =>
              (0 <? successful_updates, commit files2 output_path db')
          end
      end
  end.

(** ** Notions of the specification *)

(** [old] is a literal prefix of [t], with remainder [rest]. *)
Definition prefix_split (old t rest : string) : Prop := t = old +:+ rest.

(** First-match resolution as the specification words it: the first rule
    of the list whose old prefix is a prefix of [t] replaces that leading
    occurrence; without such a rule [t] is returned. *)
Inductive first_match (rules : list (string * string)) (t : string) : string -> Prop :=
  | first_match_rule pre old new post rest :
      rules = pre ++ (old, new) :: post ->
      Forall (fun r => forall rest', ~ prefix_split r.1 t rest') pre ->
      prefix_split old t rest ->
      first_match rules t (new +:+ rest)
  | first_match_none :
      Forall (fun r => forall rest', ~ prefix_split r.1 t rest') rules ->
      first_match rules t t.

Fixpoint all_space (s : string) : bool :=
  match s with
  | EmptyString => true
  | String c r => is_space c && all_space r
  end.

Definition starts_with_space (s : string) : bool :=
  match s with
  | EmptyString => false
  | String c _ => is_space c
  end.

Fixpoint ends_with_space (s : string) : bool :=
  match s with
  | EmptyString => false
  | String c EmptyString => is_space c
  | String _ r => ends_with_space r
  end.

(** [t] is [s] without its surrounding whitespace. *)
Definition trimmed_of (s t : string) : Prop :=
  exists l r, s = l +:+ t +:+ r /\ all_space l = true /\ all_space r = true
              /\ starts_with_space t = false /\ ends_with_space t = false.

(** The rules a resolver has to work with: the supplied ones, else those
    of the configuration file. *)
Definition available_rules (mappings : option (list (string * string)))
    (cfg : config_file) : list (string * string) :=
  match mappings with
  | Some pm => pm
  | None => _load_mappings_from_file cfg
  end.

(** The update the reconciliation pass records for one row: the file time
    and the record id when the probe finds the file. *)
Definition row_update (clk : clock) (mapper : PlexPathMapper)
    (fs : gmap string fnode) (r : join_row) : option (Z * Z) :=
  match get_file_info clk mapper fs (file_path_of r) with
  | (Some t, _, true) => Some (t, r_id r)
  | _ => None
  end.

(** Every catalog timestamp of the selected rows converts to a datetime. *)
Definition convertible (clk : clock) (rows : list join_row) : Prop :=
  Forall (fun r => is_ok (_create_entry clk r) = true) rows.

(** The update a CSV row contributes to the import, if any. *)
Definition row_candidate (clk : clock) (fix_invalid_dates : bool)
    (row : csv_row) : option (Z * Z) :=
  match import_row clk fix_invalid_dates row [] with
  | Ok [(k, v)] => Some (k, v)
  | _ => None
  end.

(** The timestamp of the last pair of [l] with key [k]. *)
Fixpoint last_for (k : Z) (l : list (Z * Z)) : option Z :=
  match l with
  | [] => None
  | (k', v) :: rest =>
      match last_for k rest with
      | Some v' => Some v'
      | None => if k =? k' then Some v else None
      end
  end.


(** A gated-in row whose id or timestamp is no integer literal. *)
Definition unparsable (row : csv_row) : Prop :=
  row_gate row = true
  /\ exists id_text ts_text,
       row_get row "id" = Some id_text
       /\ row_get row "new_updated_at" = Some ts_text
       /\ (py_int id_text = Raise ValueError
           \/ py_int ts_text = Raise ValueError).

(** Running [UPDATE ... SET updated_at = ts WHERE id = id] statements, given
    as pairs [(id, ts)], on the table. *)
Definition run_statements (tbl : gmap Z sqlval) (stmts : list (Z * Z))
    : gmap Z sqlval :=
  foldl (fun t kv => alter (fun _ => SqlInt kv.2) kv.1 t) tbl stmts.

Definition with_table (db : database) (tbl : gmap Z sqlval) : database :=
  {| metadata_items := Some tbl; other_content := other_content db |}.

(** A timestamp passes the writer's validity check: validation is off, or
    the timestamp is a datetime of a year in the window. *)
Definition passes_validation (clk : clock) (fix_invalid_dates : bool)
    (ts : Z) : bool :=
  negb fix_invalid_dates
  || match datetime_fromtimestamp clk ts with
     | Ok dt => negb (year_invalid clk dt)
     | Raise _ => false
     end.

(** With validation on, some timestamp of the list is no datetime, which
    makes the writer's loop raise. *)
Definition writer_raises (clk : clock) (fix_invalid_dates : bool)
    (updates : list (Z * Z)) : bool :=
  fix_invalid_dates
  && existsb (fun u => negb (is_ok (datetime_fromtimestamp clk u.1))) updates.



(** The database a path holds, when it holds one. *)
Definition database_at (files : gmap string file_content) (path : string)
    : option database :=
  match files !! path with
  | Some (Sqlite db) => Some db
  | _ => None
  end.


(** ** Numerals *)



(** ** Statements that the code does not satisfy

    Each is a sentence of the specification read literally; the
    properties below refute it on a concrete input and prove the nearby
    statement that holds. *)

(** The claim that construction fails exactly when there are no rules to
    work with. *)
Definition init_fails_exactly_without_rules : Prop :=
  forall mappings cfg,
    (exists e, PlexPathMapper_init mappings cfg = Raise e)
    <-> available_rules mappings cfg = [].





(** ** Example data *)

Definition clock_2026 : clock := {| current_year := 2026; utc_offset := 0 |}.

(** A small library used in the examples: one item with two parts, one
    item without a file on disk. *)
Definition example_mapper : PlexPathMapper :=
  {| path_mappings := [("/unittest/", "/home/unittest/")] |}.

Definition example_row (id : Z) (t : option string) (f : string) : join_row :=
  {| r_id := id; r_title := t; r_added_at := SqlInt 1234567890;
     r_created_at := SqlNull; r_updated_at := SqlInt 1234567890;
     r_library_section_id := SqlInt 1; r_file := Some f |}.

Definition example_fs : gmap string fnode :=
  {[ "/home/unittest/movies/a.mkv" := RegularFile (Some 1500000000);
     "/home/unittest/movies/a-part2.mkv" := RegularFile (Some 1600000000);
     "/media/b.mkv" := RegularFile (Some 1700000000) ]}.

Definition example_catalog : list join_row :=
  [ example_row 1 (Some "A") "/unittest/movies/a.mkv";
    example_row 1 (Some "A") "/unittest/movies/a-part2.mkv";
    example_row 2 (Some "B") "/media/b.mkv";
    example_row 3 (Some "C") "/media/missing.mkv" ].

Definition example_database : database :=
  {| metadata_items := Some {[ 1 := SqlInt 1234567890; 2 := SqlInt 1234567890;
                               3 := SqlInt 1234567890 ]};
     other_content := "schema and other tables" |}.

Definition example_files : gmap string file_content :=
  {[ "/plex/library.db" := Sqlite example_database ]}.



Definition no_tool : backup_tool :=
  {| plex_sqlite_found := false; run_backup := fun _ _ _ => (None, 1) |}.


(** * The rest of the program *)

(** ** main: the updates kept before writing *)

(** [[(mtime, item_id) for mtime, item_id in updates
      if any(e['item_id'] == item_id and e['file_exists'] for e in entries)]] *)
Definition valid_updates (entries : list entry) (updates : list (Z * Z))
    : list (Z * Z) :=
  List.filter
    (fun u => existsb (fun e => (item_id e =? u.2) && file_exists e) entries)
    updates.

(** ** ResultDisplay.display_entries: the warning counter *)


(** ** CSVHandler.analyze_csv *)

(** An insertion-ordered [dict] from text to a counter. *)
Fixpoint counter_incr (k : string) (d : list (string * Z)) : list (string * Z) :=
  match d with
  | [] => [(k, 0 + 1)]
  | (k', n) :: rest =>
      if String.eqb k k' then (k', n + 1) :: rest
      else (k', n) :: counter_incr k rest
  end.

(** The counters of the analysis; the percentages of the report are
    floating point and are left out. *)
Record csv_analysis : Type := {
  total_records : Z;
  files_exist : Z;
  paths_mapped : Z;
  updates_pending : Z;
  libraries : list (string * Z)
}.

(** The body of the loop over the rows (every row has a cell for every
    header column). *)
Definition analyze_row (st : csv_analysis) (row : csv_row) : csv_analysis :=
  {| total_records := total_records st + 1;
     files_exist :=
       if bool_decide (row_get row "file_exists" = Some "true")
       then files_exist st + 1 else files_exist st;
     paths_mapped :=
       if bool_decide (row_get row "path_was_mapped" = Some "true")
       then paths_mapped st + 1 else paths_mapped st;
     updates_pending :=
       if bool_decide (row_get row "updated_at" <> row_get row "new_updated_at")
       then updates_pending st + 1 else updates_pending st;
     libraries :=
       counter_incr (default "Unknown" (row_get row "library_section_id"))
         (libraries st) |}.

(** The counters the report prints, or [None] when the function ends in
    its [except] branch: the CSV file cannot be opened ([csv] is [None]),
    or there is no row and the first percentage divides by zero. *)
Definition analyze_csv (csv : option (list csv_row)) : option csv_analysis :=
  match csv with
  | None => None
  | Some rows =>
      let st := foldl analyze_row
                  {| total_records := 0; files_exist := 0; paths_mapped := 0;
                     updates_pending := 0; libraries := [] |} rows in
      if total_records st =? 0 then None else Some st
  end.

(** ** PlexDatabaseManager.analyze_path_mappings *)










(** ** Notions used for the rest of the program *)

(** The year of [ts] lies in the validity window. *)
Definition in_window (clk : clock) (ts : Z) : Prop :=
  1970 <= datetime_year clk ts <= current_year clk + 1.

(** The valid updates of a list of [(mtime, item_id)], as statements
    [(item_id, mtime)] in list order. *)
Definition valid_statements (clk : clock) (fix_invalid_dates : bool)
    (updates : list (Z * Z)) : list (Z * Z) :=
  (fun u => (u.2, u.1))
    <$> List.filter (fun u => passes_validation clk fix_invalid_dates u.1) updates.

(** What a table looks like after the statements [stmts]: an id absent
    from the table stays absent, an id with a statement holds the
    timestamp of its last statement, any other id keeps its value. *)
Definition table_after (tbl tbl' : gmap Z sqlval) (stmts : list (Z * Z)) : Prop :=
  forall id,
    tbl' !! id = match last_for id stmts with
                 | Some ts => (fun _ => SqlInt ts) <$> tbl !! id
                 | None => tbl !! id
                 end.

Definition example_table : gmap Z sqlval :=
  {[ 1 := SqlInt 1234567890; 2 := SqlInt 1234567890; 3 := SqlInt 1234567890 ]}.

(** The update an entry stands for: its file time with its id, when it has
    a file time. *)
Definition entry_update (e : entry) : option (Z * Z) :=
  (fun t => (t, item_id e)) <$> file_mtime e.

(** An entry as the reconciliation pass builds it for a row. *)
Definition entry_matches (clk : clock) (mapper : PlexPathMapper)
    (fs : gmap string fnode) (e : entry) (r : join_row) : Prop :=
  item_id e = r_id r
  /\ plex_path e = file_path_of r
  /\ entry_update e = row_update clk mapper fs r
  /\ file_exists e = bool_decide (is_Some (file_mtime e)).

(** The key function of a sort field, for the four fields
    [_sort_entries] knows. *)
Definition sort_key (sort_by : string) : option (entry -> Z) :=
  if String.eqb sort_by "file_mtime" then Some (fun x => or_min (file_mtime x))
  else if String.eqb sort_by "added_at" then Some (fun x => or_min (added_at x))
  else if String.eqb sort_by "created_at" then Some (fun x => or_min (created_at x))
  else if String.eqb sort_by "updated_at" then Some (fun x => or_min (updated_at x))
  else None.

(** Descending order of the keys. *)
Definition descending {A} (key : A -> Z) (l : list A) : Prop :=
  StronglySorted (fun a b => key b <= key a) l.


(** The number of elements of [l] that satisfy [f]. *)
Definition count_of {A} (f : A -> bool) (l : list A) : Z :=
  Z.of_nat (length (List.filter f l)).

(** The sum of the counters of a [dict] of counters. *)
Definition counter_sum (d : list (string * Z)) : Z :=
  foldr (fun kv n => kv.2 + n) 0 d.

(** The probe finds the file of a catalog row. *)
Definition row_found (clk : clock) (mapper : PlexPathMapper)
    (fs : gmap string fnode) (r : join_row) : bool :=
  (get_file_info clk mapper fs (file_path_of r)).2.

Fixpoint has_comma (s : string) : bool :=
  match s with
  | EmptyString => false
  | String c r => Ascii.eqb c "," || has_comma r
  end.

(** A rule as a line of the configuration file can carry it: both sides
    without surrounding whitespace, no comma in the old prefix, and no [#]
    at its start. *)
Definition line_rule (r : string * string) : Prop :=
  starts_with_space r.1 = false /\ ends_with_space r.1 = false
  /\ starts_with_space r.2 = false /\ ends_with_space r.2 = false
  /\ has_comma r.1 = false /\ startswith r.1 "#" = false.

(** The line feed that ends a line read from a file, and the line written
    for a rule. *)
Definition newline : string := String (ascii_of_nat 10) EmptyString.

Definition rule_line (r : string * string) : string :=
  r.1 +:+ "," +:+ r.2 +:+ newline.


(** The three tests of the loop of [analyze_csv]. *)
Definition row_exists (row : csv_row) : bool :=
  bool_decide (row_get row "file_exists" = Some "true").

Definition row_mapped (row : csv_row) : bool :=
  bool_decide (row_get row "path_was_mapped" = Some "true").

Definition row_pending (row : csv_row) : bool :=
  bool_decide (row_get row "updated_at" <> row_get row "new_updated_at").



(** * Properties *)

(** ** Strings *)

Local Arguments String.append !_ _ / : simpl nomatch.

Lemma startswith_app (p rest : string) : startswith (p +:+ rest) p = true.
Proof.
  induction p as [|a p IH]; simpl; [reflexivity|].
  rewrite Ascii.eqb_refl. exact IH.
Qed.

Lemma startswith_split (s p : string) :
  startswith s p = true -> s = p +:+ string_drop (String.length p) s.
Proof.
  revert s. induction p as [|a p IH]; intros s H; simpl in *; [reflexivity|].
  destruct s as [|b s]; [discriminate|].
  apply andb_true_iff in H as [Hab Hs].
  apply Ascii.eqb_eq in Hab. subst b. simpl. f_equal. apply IH, Hs.
Qed.

Lemma string_drop_app (p rest : string) :
  string_drop (String.length p) (p +:+ rest) = rest.
Proof. induction p; simpl; auto. Qed.

Lemma startswith_iff (s p : string) :
  startswith s p = true <-> exists rest, prefix_split p s rest.
Proof.
  split.
  - intros H. eexists. apply startswith_split, H.
  - intros [rest ->]. apply startswith_app.
Qed.

Lemma replace1_prefix (s old new : string) :
  startswith s old = true ->
  replace1 s old new = new +:+ string_drop (String.length old) s.
Proof. intros H. destruct s; simpl in *; rewrite H; reflexivity. Qed.

Lemma append_assoc (a b c : string) : (a +:+ b) +:+ c = a +:+ (b +:+ c).
Proof. induction a; simpl; congruence. Qed.

Lemma append_empty_r (a : string) : a +:+ EmptyString = a.
Proof. induction a; simpl; congruence. Qed.

Lemma lstrip_spec (s : string) :
  exists l, s = l +:+ lstrip s /\ all_space l = true
            /\ starts_with_space (lstrip s) = false.
Proof.
  induction s as [|c s (l & Hs & Hl & Hst)]; simpl.
  - exists EmptyString. auto.
  - destruct (is_space c) eqn:Hc.
    + exists (String c l). simpl. rewrite Hc, Hl. split; [congruence | auto].
    + exists EmptyString. simpl. auto.
Qed.

Lemma rstrip_spec (s : string) :
  exists r, s = rstrip s +:+ r /\ all_space r = true
            /\ ends_with_space (rstrip s) = false.
Proof.
  induction s as [|c s (r & Hs & Hr & He)]; simpl.
  - exists EmptyString. auto.
  - destruct (rstrip s) as [|d t] eqn:Ht.
    + destruct (is_space c) eqn:Hc.
      * exists (String c r). simpl in *. rewrite Hc, Hr. split; [congruence | auto].
      * exists r. simpl in *. rewrite Hc. split; [congruence | auto].
    + exists r. split; [simpl in *; congruence|]. split; [exact Hr|].
      exact He.
Qed.

Lemma rstrip_keeps_start (s : string) :
  starts_with_space s = false -> starts_with_space (rstrip s) = false.
Proof.
  destruct s as [|c s]; simpl; [auto|]. intros Hc.
  destruct (rstrip s); [rewrite Hc|]; simpl; auto.
Qed.

Lemma strip_trimmed (s : string) : trimmed_of s (strip s).
Proof.
  destruct (lstrip_spec s) as (l & Hs & Hl & Hst).
  destruct (rstrip_spec (lstrip s)) as (r & Hr & Hr' & He).
  exists l, r. unfold strip. repeat split; auto.
  - rewrite <- Hr. exact Hs.
  - apply rstrip_keeps_start, Hst.
Qed.

(** ** Path resolution *)

Lemma apply_mappings_first_match (rules : list (string * string)) (t : string) :
  first_match rules t (apply_mappings rules t).
Proof.
  induction rules as [|[old new] rules IH]; simpl.
  - apply first_match_none. constructor.
  - destruct (startswith t old) eqn:Hsw.
    + rewrite replace1_prefix by exact Hsw.
      apply (first_match_rule _ _ [] old new rules); [reflexivity | constructor |].
      apply startswith_split, Hsw.
    + assert (Hno : forall rest', ~ prefix_split old t rest').
      { intros rest' Hp.
        assert (startswith t old = true) by (apply startswith_iff; eauto).
        congruence. }
      set (r := apply_mappings rules t) in *. clearbody r.
      destruct IH as [pre o n post rest Hrules Hpre Hsplit | Hall].
      * apply (first_match_rule _ _ ((old, new) :: pre) o n post rest);
          [simpl; congruence | constructor; [exact Hno | assumption] | assumption].
      * apply first_match_none. constructor; [exact Hno | assumption].
Qed.

Lemma prefix_split_functional (old t r1 r2 : string) :
  prefix_split old t r1 -> prefix_split old t r2 -> r1 = r2.
Proof.
  unfold prefix_split. intros -> H.
  induction old; simpl in H; [auto|]. injection H. auto.
Qed.

Lemma first_match_functional (rules : list (string * string)) (t r1 r2 : string) :
  first_match rules t r1 -> first_match rules t r2 -> r1 = r2.
Proof.
  revert r1 r2. induction rules as [|[old new] rules IH]; intros r1 r2 H1 H2.
  - inversion H1 as [pre ? ? ? ? E|]; [destruct pre; discriminate|].
    inversion H2 as [pre ? ? ? ? E|]; [destruct pre; discriminate|]. congruence.
  - assert (Hstep : forall r, first_match ((old, new) :: rules) t r ->
        (exists rest, prefix_split old t rest /\ r = new +:+ rest)
        \/ ((forall rest', ~ prefix_split old t rest') /\ first_match rules t r)).
    { intros r H. inversion H as [pre o n post rest E Hpre Hsp Hr | Hall Hr].
      - destruct pre as [|x pre]; simpl in E.
        + injection E as -> -> ->. left. eauto.
        + injection E as <- ->. right. inversion Hpre as [|? ? Hx Hpre']; subst.
          split; [exact Hx|]. eapply first_match_rule; eauto.
      - right. inversion Hall as [|? ? Hx Hall']; subst.
        split; [exact Hx|]. apply first_match_none, Hall'. }
    destruct (Hstep _ H1) as [(x1 & Hp1 & ->) | (Hn1 & Hf1)];
    destruct (Hstep _ H2) as [(x2 & Hp2 & ->) | (Hn2 & Hf2)].
    + f_equal. eapply prefix_split_functional; eauto.
    + exfalso. eapply Hn2; eauto.
    + exfalso. eapply Hn1; eauto.
    + eauto.
Qed.

(** C2. For a non-empty path, [map_path] works on the path without its
    surrounding whitespace and returns what first-match resolution over
    the rule list in declaration order gives: the first rule whose old
    prefix is a literal prefix has that one leading occurrence replaced by
    its new prefix, later rules are not consulted, and without a matching
    rule the trimmed path is returned. That result is the only one
    first-match resolution allows. *)
Theorem map_path_first_match (self : PlexPathMapper) (plex_path : string) :
  plex_path <> EmptyString ->
  trimmed_of plex_path (strip plex_path)
  /\ first_match (path_mappings self) (strip plex_path) (map_path self plex_path)
  /\ (forall r, first_match (path_mappings self) (strip plex_path) r ->
                r = map_path self plex_path).
Proof.
  intros Hne. unfold map_path. destruct (decide _) as [|_]; [contradiction|].
  split; [apply strip_trimmed|]. split; [apply apply_mappings_first_match|].
  intros r Hr. eapply first_match_functional; [exact Hr|].
  apply apply_mappings_first_match.
Qed.

Lemma map_path_first_match_witness :
  first_match [("/unittest/", "/home/"); ("/unittest/movies/", "/mnt/")]
    "/unittest/movies/a.mkv"
    (map_path {| path_mappings := [("/unittest/", "/home/"); ("/unittest/movies/", "/mnt/")] |}
       "  /unittest/movies/a.mkv ").
Proof.
  apply (map_path_first_match
           {| path_mappings := [("/unittest/", "/home/"); ("/unittest/movies/", "/mnt/")] |}
           "  /unittest/movies/a.mkv ").
  discriminate.
Defined.

Example map_path_first_listed_wins :
  map_path {| path_mappings := [("/unittest/", "/home/"); ("/unittest/movies/", "/mnt/")] |}
    "  /unittest/movies/a.mkv " = "/home/movies/a.mkv".
Proof. reflexivity. Qed.

(** ** Resolver construction *)

Lemma init_supplied (pm : list (string * string)) (cfg : config_file) :
  PlexPathMapper_init (Some pm) cfg = Ok {| path_mappings := pm |}.
Proof. reflexivity. Qed.

Lemma no_rules_is_pass_through (plex_path : string) :
  map_path {| path_mappings := [] |} plex_path
  = if decide (plex_path = EmptyString) then plex_path else strip plex_path.
Proof. reflexivity. Qed.

(** C6, counterexample. A supplied empty list makes construction succeed
    with a resolver that has no rule and returns paths as they are. *)
Lemma init_empty_list_passes_through :
  PlexPathMapper_init (Some []) None = Ok {| path_mappings := [] |}
  /\ map_path {| path_mappings := [] |} "/unittest/movies/a.mkv" = "/unittest/movies/a.mkv"
  /\ ~ init_fails_exactly_without_rules.
Proof.
  split; [reflexivity|]. split; [reflexivity|].
  intros H. destruct (H (Some []) None) as [_ H2].
  destruct (H2 eq_refl) as [e He]. discriminate He.
Qed.

(** C6 (amended). Construction fails, with [ValueError], exactly when no
    rule list was supplied ([None]) and the configuration file gives no
    rule; a supplied list, the empty one included, is taken as it is.
    When construction succeeds the resolver holds the available rules,
    and these are non-empty whenever they were loaded from the file. *)
Theorem init_fails_iff_none_supplied_and_none_loaded
    (mappings : option (list (string * string))) (cfg : config_file) :
  ((exists e, PlexPathMapper_init mappings cfg = Raise e)
   <-> mappings = None /\ _load_mappings_from_file cfg = [])
  /\ (forall e, PlexPathMapper_init mappings cfg = Raise e -> e = ValueError)
  /\ (forall self, PlexPathMapper_init mappings cfg = Ok self ->
        path_mappings self = available_rules mappings cfg
        /\ (mappings = None -> path_mappings self <> [])).
Proof.
  destruct mappings as [pm|]; simpl.
  - split; [split|split].
    + intros [e He]. discriminate He.
    + intros [Hm _]. discriminate Hm.
    + intros e He. discriminate He.
    + intros self [= <-]. split; [reflexivity | intros Hm; discriminate Hm].
  - destruct (_load_mappings_from_file cfg) as [|r rs] eqn:Hload.
    + split; [split|split].
      * auto.
      * intros _. exists ValueError. reflexivity.
      * intros e [= <-]. reflexivity.
      * intros self Hs. discriminate Hs.
    + split; [split|split].
      * intros [e He]. discriminate He.
      * intros [_ Hl]. discriminate Hl.
      * intros e He. discriminate He.
      * intros self [= <-]. split; [reflexivity | intros _ Hnil; discriminate Hnil].
Qed.

Lemma init_fails_iff_none_supplied_and_none_loaded_witness :
  (exists e, PlexPathMapper_init None (Some ["# only a comment"; "no comma"]) = Raise e)
  /\ PlexPathMapper_init None (Some ["/unittest/,/home/unittest/"])
     = Ok {| path_mappings := [("/unittest/", "/home/unittest/")] |}.
Proof.
  split.
  - apply (init_fails_iff_none_supplied_and_none_loaded None
             (Some ["# only a comment"; "no comma"])).
    split; reflexivity.
  - reflexivity.
Defined.

(** ** The file probe *)


Lemma probe_not_a_file (clk : clock) (fs : gmap string fnode) (p : string) :
  is_file fs (path_str p) = false -> probe clk fs p = None.
Proof. intros H. unfold probe. rewrite H. reflexivity. Qed.

Lemma fromtimestamp_ok (clk : clock) (ts dt : Z) :
  datetime_fromtimestamp clk ts = Ok dt -> dt = ts.
Proof.
  unfold datetime_fromtimestamp. destruct (_ || _); [discriminate|].
  destruct (_ && _); [|discriminate]. intros [= <-]. reflexivity.
Qed.

Lemma probe_is_datetime (clk : clock) (fs : gmap string fnode) (p : string) (t : Z) :
  probe clk fs p = Some t -> datetime_fromtimestamp clk t = Ok t.
Proof.
  unfold probe, read_mtime. destruct (is_file fs (path_str p)); [|discriminate].
  destruct (fs !! path_str p) as [[|[st|]]|]; try discriminate.
  destruct (datetime_fromtimestamp clk st) as [dt|] eqn:Hdt; [|discriminate].
  intros [= <-]. pose proof (fromtimestamp_ok _ _ _ Hdt) as ->. exact Hdt.
Qed.




Example get_file_info_read_error_falls_through :
  get_file_info clock_2026 {| path_mappings := [("/unittest/", "/home/unittest/")] |}
    {[ "/unittest/a.mkv" := RegularFile None;
       "/home/unittest/a.mkv" := RegularFile (Some 200) ]} "/unittest/a.mkv"
  = (Some 200, Some "/home/unittest/a.mkv", true).
Proof. reflexivity. Qed.

(** ** Reconciliation *)

Section Reconciliation.

Context (clk : clock) (mapper : PlexPathMapper) (fs : gmap string fnode).

Lemma get_file_info_cases (p : string) :
  get_file_info clk mapper fs p = (None, None, false)
  \/ exists t a, get_file_info clk mapper fs p = (Some t, Some a, true)
                 /\ datetime_fromtimestamp clk t = Ok t.
Proof.
  unfold get_file_info. destruct (decide (p = EmptyString)); [auto|].
  destruct (probe clk fs p) as [t|] eqn:Hp.
  - right. exists t, (path_str p). split; [reflexivity|].
    eapply probe_is_datetime, Hp.
  - destruct (decide _); [|auto].
    destruct (probe clk fs (map_path mapper p)) as [t|] eqn:Hm; [|auto].
    right. exists t, (map_path mapper p). split; [reflexivity|].
    eapply probe_is_datetime, Hm.
Qed.

Lemma reconcile_row_spec (r : join_row) (acc : list entry * list (Z * Z)) :
  match _create_entry clk r with
  | Raise e => reconcile_row clk mapper fs r acc = Raise e
  | Ok _ =>
      exists e, item_id e = r_id r
        /\ reconcile_row clk mapper fs r acc
           = Ok (acc.1 ++ [e], acc.2 ++ option_list (row_update clk mapper fs r))
  end.
Proof.
  unfold reconcile_row, row_update.
  destruct (_create_entry clk r) as [e|err] eqn:He; simpl; [|reflexivity].
  assert (Hid : item_id e = r_id r).
  { unfold _create_entry in He.
    destruct (convert_timestamp clk (r_added_at r)); simpl in He; [|discriminate].
    destruct (convert_timestamp clk (r_created_at r)); simpl in He; [|discriminate].
    destruct (convert_timestamp clk (r_updated_at r)); simpl in He; [|discriminate].
    injection He as <-. reflexivity. }
  destruct (get_file_info_cases (file_path_of r))
    as [-> | (t & a & -> & _)]; simpl.
  - exists e. rewrite app_nil_r. auto.
  - eexists. split; [|reflexivity]. exact Hid.
Qed.

Lemma reconcile_rows_spec (rows : list join_row) :
  forall acc,
    (convertible clk rows ->
     exists es, item_id <$> es = r_id <$> rows
       /\ reconcile_rows clk mapper fs rows acc
          = Ok (acc.1 ++ es, acc.2 ++ omap (row_update clk mapper fs) rows))
    /\ (forall res, reconcile_rows clk mapper fs rows acc = Ok res ->
        convertible clk rows).
Proof.
  induction rows as [|r rows IH]; intros acc; simpl.
  - split.
    + intros _. exists []. rewrite !app_nil_r. destruct acc. auto.
    + intros _ _. constructor.
  - pose proof (reconcile_row_spec r acc) as Hrow.
    destruct (_create_entry clk r) as [e0|err] eqn:He.
    + destruct Hrow as (e & Hid & ->). simpl.
      destruct (IH (acc.1 ++ [e], acc.2 ++ option_list (row_update clk mapper fs r)))
        as [IH1 IH2].
      split.
      * intros Hc. inversion Hc as [|? ? _ Hc']; subst.
        destruct (IH1 Hc') as (es & Hes & ->). exists (e :: es). simpl.
        split; [f_equal; [exact Hid | exact Hes]|]. f_equal. f_equal.
        -- rewrite <- app_assoc. reflexivity.
        -- rewrite <- app_assoc. f_equal.
           destruct (row_update clk mapper fs r); reflexivity.
      * intros res Hres. constructor; [rewrite He; reflexivity|].
        eapply IH2, Hres.
    + rewrite Hrow. simpl. split.
      * intros Hc. inversion Hc as [|? ? Hr _]; subst. rewrite He in Hr. discriminate Hr.
      * intros res Hres. discriminate Hres.
Qed.

Lemma insert_desc_perm {A} (key : A -> Z) (x : A) (l : list A) :
  insert_desc key x l ≡ₚ x :: l.
Proof.
  induction l as [|y l IH]; simpl; [reflexivity|].
  destruct (key y <=? key x); [reflexivity|].
  rewrite IH. apply Permutation_swap.
Qed.

Lemma sorted_desc_perm {A} (key : A -> Z) (l : list A) : sorted_desc key l ≡ₚ l.
Proof.
  induction l as [|x l IH]; simpl; [reflexivity|].
  rewrite insert_desc_perm, IH. reflexivity.
Qed.

Lemma _sort_entries_perm (entries : list entry) (sort_by : string) :
  _sort_entries entries sort_by ≡ₚ entries.
Proof.
  unfold _sort_entries.
  repeat (destruct (String.eqb _ _); [apply sorted_desc_perm|]). reflexivity.
Qed.

Lemma slice_to_nonneg {A} (l : list A) (limit : Z) :
  0 <= limit -> slice_to l limit = take (Z.to_nat limit) l.
Proof. intros H. unfold slice_to. destruct (Z.leb_spec 0 limit); [reflexivity | lia]. Qed.

Lemma slice_to_zero {A} (l : list A) : slice_to l 0 = [].
Proof. reflexivity. Qed.

Lemma slice_to_negative {A} (l : list A) (limit : Z) :
  limit < 0 -> slice_to l limit = take (length l - Z.to_nat (- limit)) l.
Proof. intros H. unfold slice_to. destruct (Z.leb_spec 0 limit); [lia | reflexivity]. Qed.

Lemma slice_to_all {A} (l : list A) (limit : Z) :
  Z.of_nat (length l) <= limit -> slice_to l limit = l.
Proof.
  intros H. rewrite slice_to_nonneg by lia. apply take_ge. lia.
Qed.


Lemma get_recent_media_unfold (catalog : list join_row) (limit : Z)
    (sort_by : string) (entries : list entry) (updates : list (Z * Z)) :
  get_recent_media clk mapper fs catalog limit sort_by = Ok (entries, updates) ->
  exists es,
    item_id <$> es = r_id <$> recent_media_query catalog
    /\ convertible clk (recent_media_query catalog)
    /\ entries = slice_to (_sort_entries es sort_by) limit
    /\ updates = List.filter
         (fun u => bool_decide (u.2 ∈ (list_to_set (item_id <$> entries) : gset Z)))
         (omap (row_update clk mapper fs) (recent_media_query catalog)).
Proof.
  unfold get_recent_media. intros H.
  destruct (reconcile_rows_spec (recent_media_query catalog) ([], []))
    as [H1 H2].
  destruct (reconcile_rows clk mapper fs (recent_media_query catalog) ([], []))
    as [[es us]|] eqn:Hrun; simpl in H; [|discriminate H].
  pose proof (H2 _ eq_refl) as Hc.
  destruct (H1 Hc) as (es' & Hids & [= -> ->]). simpl in *.
  injection H as <- <-. exists es'. auto.
Qed.



End Reconciliation.


(** C3. What the code does with a limit that is not positive: limit 0
    returns no entry and no update, and a negative limit drops entries
    from the end of the sorted list instead of keeping them all; a
    non-negative limit keeps the first [limit] entries. *)
Theorem limit_not_positive_is_not_unlimited :
  (forall clk mapper fs catalog sort_by,
     get_recent_media clk mapper fs catalog 0 sort_by
     = (reconcile_rows clk mapper fs (recent_media_query catalog) ([], [])
        ≫= fun _ => Ok ([], [])))
  /\ get_recent_media clock_2026 example_mapper example_fs example_catalog 0
       "file_mtime" = Ok ([], [])
  /\ (item_id <$>
        (match get_recent_media clock_2026 example_mapper example_fs
                 example_catalog (-1) "file_mtime" with
         | Ok res => res.1 | Raise _ => [] end)) = [2; 1; 1]
  /\ (item_id <$>
        (match get_recent_media clock_2026 example_mapper example_fs
                 example_catalog 30 "file_mtime" with
         | Ok res => res.1 | Raise _ => [] end)) = [2; 1; 1; 3].
Proof.
  split; [|split; [|split]]; [|vm_compute; reflexivity..].
  intros clk mapper fs catalog sort_by. unfold get_recent_media.
  destruct (reconcile_rows _ _ _ _ _) as [[es us]|]; simpl; [|reflexivity].
  rewrite slice_to_zero. simpl.
  f_equal. f_equal. induction us as [|u us IH]; simpl; [reflexivity|].
  rewrite bool_decide_eq_false_2 by set_solver. exact IH.
Qed.

(** ** Integers as text *)












(** ** The insertion-ordered dict *)

Lemma dict_set_nonempty (k v : Z) (d : pydict) : dict_set k v d <> [].
Proof. destruct d as [|[k' v'] d]; simpl; [|destruct (k =? k')]; discriminate. Qed.

Lemma dict_get_set (k k' v : Z) (d : pydict) :
  dict_get k (dict_set k' v d) = if k =? k' then Some v else dict_get k d.
Proof.
  induction d as [|[k0 v0] d IH]; simpl.
  - reflexivity.
  - destruct (Z.eqb_spec k' k0) as [->|Hne]; simpl.
    + destruct (k =? k0); reflexivity.
    + rewrite IH. destruct (Z.eqb_spec k k0) as [->|]; [|reflexivity].
      destruct (Z.eqb_spec k0 k'); [congruence | reflexivity].
Qed.

Lemma dict_set_keys (k v : Z) (d : pydict) :
  forall x, x ∈ (dict_set k v d).*1 <-> x = k \/ x ∈ d.*1.
Proof.
  induction d as [|[k0 v0] d IH]; intros x; simpl.
  - rewrite list_elem_of_singleton, elem_of_nil. tauto.
  - destruct (Z.eqb_spec k k0) as [->|Hne]; simpl.
    + rewrite !elem_of_cons. tauto.
    + rewrite !elem_of_cons, IH. tauto.
Qed.

Lemma dict_set_nodup (k v : Z) (d : pydict) :
  NoDup d.*1 -> NoDup (dict_set k v d).*1.
Proof.
  induction d as [|[k0 v0] d IH]; simpl; intros Hd.
  - apply NoDup_singleton.
  - apply NoDup_cons in Hd as [Hk0 Hd].
    destruct (Z.eqb_spec k k0) as [->|Hne]; simpl.
    + apply NoDup_cons. auto.
    + apply NoDup_cons. split; [|auto].
      rewrite dict_set_keys. intros [Heq|Hin]; [congruence | contradiction].
Qed.

Lemma fold_dict_set_get (l : list (Z * Z)) :
  forall d k,
    dict_get k (foldl (fun d kv => dict_set kv.1 kv.2 d) d l)
    = match last_for k l with
      | Some v => Some v
      | None => dict_get k d
      end.
Proof.
  induction l as [|[k0 v0] l IH]; intros d k; simpl; [reflexivity|].
  rewrite IH. destruct (last_for k l); [reflexivity|].
  rewrite dict_get_set. destruct (k =? k0); reflexivity.
Qed.

Lemma fold_dict_set_nodup (l : list (Z * Z)) :
  forall d, NoDup d.*1 -> NoDup (foldl (fun d kv => dict_set kv.1 kv.2 d) d l).*1.
Proof.
  induction l as [|[k0 v0] l IH]; intros d Hd; simpl; [exact Hd|].
  apply IH, dict_set_nodup, Hd.
Qed.

(** ** The import loop *)

Section ImportLoop.

Context (clk : clock) (fix_invalid_dates : bool).

Lemma import_rows_app (a b : list csv_row) (u : pydict) :
  import_rows clk fix_invalid_dates (a ++ b) u
  = import_rows clk fix_invalid_dates a u ≫= import_rows clk fix_invalid_dates b.
Proof.
  revert u. induction a as [|row a IH]; intros u; simpl; [reflexivity|].
  destruct (import_row clk fix_invalid_dates row u); simpl; [apply IH | reflexivity].
Qed.

Lemma import_row_cases (row : csv_row) :
  (forall u, import_row clk fix_invalid_dates row u = Ok u)
  \/ (exists k v, forall u, import_row clk fix_invalid_dates row u = Ok (dict_set k v u))
  \/ (exists e, forall u, import_row clk fix_invalid_dates row u = Raise e).
Proof.
  unfold import_row. destruct (row_gate row); [|auto].
  destruct (row_item row "id") as [id_text|e]; simpl; [|right; right; eauto].
  destruct (py_int id_text) as [id|e]; simpl; [|right; right; eauto].
  destruct (row_item row "new_updated_at") as [ts_text|e]; simpl;
    [|right; right; eauto].
  destruct (py_int ts_text) as [ts|e]; simpl; [|right; right; eauto].
  destruct fix_invalid_dates; [|right; left; eauto].
  destruct (datetime_fromtimestamp clk ts) as [dt|e].
  - destruct (year_invalid clk dt); [auto | right; left; eauto].
  - destruct e; auto; right; right; eauto.
Qed.

Lemma import_row_candidate (row : csv_row) (u u' : pydict) :
  import_row clk fix_invalid_dates row u = Ok u' ->
  u' = match row_candidate clk fix_invalid_dates row with
       | Some (k, v) => dict_set k v u
       | None => u
       end.
Proof.
  unfold row_candidate.
  destruct (import_row_cases row)
    as [H | [(k & v & H) | (e & H)]]; rewrite !H; simpl; congruence.
Qed.

Lemma import_rows_fold (rows : list csv_row) :
  forall u d, import_rows clk fix_invalid_dates rows u = Ok d ->
    d = foldl (fun d kv => dict_set kv.1 kv.2 d) u
          (omap (row_candidate clk fix_invalid_dates) rows).
Proof.
  induction rows as [|row rows IH]; intros u d H; simpl in *; [congruence|].
  destruct (import_row clk fix_invalid_dates row u) as [u1|] eqn:Hrow;
    simpl in H; [|discriminate H].
  apply import_row_candidate in Hrow. apply IH in H. rewrite H, Hrow.
  destruct (row_candidate clk fix_invalid_dates row) as [[k v]|]; reflexivity.
Qed.



Lemma import_row_unparsable (row : csv_row) (u : pydict) :
  unparsable row -> import_row clk fix_invalid_dates row u = Raise ValueError.
Proof.
  intros (Hg & id_text & ts_text & Hid & Hts & Hbad).
  unfold import_row, row_item. rewrite Hg, Hid. simpl.
  destruct Hbad as [Hbad | Hbad].
  - rewrite Hbad. reflexivity.
  - destruct (py_int id_text) as [id|e] eqn:Hpid; simpl.
    + rewrite Hts. simpl. rewrite Hbad. reflexivity.
    + unfold py_int in Hpid. destruct (match _ with String _ _ => _ | _ => _ end);
        [discriminate Hpid | injection Hpid as <-; reflexivity].
Qed.

Lemma unparsable_row_aborts (row : csv_row) (pre post : list csv_row) (u : pydict) :
  unparsable row ->
  is_ok (import_rows clk fix_invalid_dates pre u) = true ->
  import_rows clk fix_invalid_dates (pre ++ row :: post) u = Raise ValueError.
Proof.
  intros Hbad Hpre. rewrite import_rows_app.
  destruct (import_rows clk fix_invalid_dates pre u) as [u1|]; [|discriminate Hpre].
  simpl. rewrite import_row_unparsable by exact Hbad. reflexivity.
Qed.

Lemma unparsable_row_fails_import (row : csv_row) (pre post : list csv_row)
    (files : gmap string file_content) (template output : string) :
  unparsable row ->
  is_ok (import_rows clk fix_invalid_dates pre []) = true ->
  create_db_from_csv clk files (Some (pre ++ row :: post)) template output
    fix_invalid_dates
  = (false, match copy2 files template output with
            | Ok files1 => files1
            | Raise _ => files
            end).
Proof.
  intros Hbad Hpre. unfold create_db_from_csv.
  rewrite (unparsable_row_aborts row pre post [] Hbad Hpre).
  destruct (copy2 files template output); reflexivity.
Qed.


End ImportLoop.



Example import_skips_year_2099 :
  import_rows clock_2026 true
    [ [("id", "1"); ("file_exists", "true"); ("new_updated_at", "4070908800")];
      [("id", "2"); ("file_exists", "true"); ("new_updated_at", "1700000000")] ] []
  = Ok [(2, 1700000000)].
Proof. vm_compute. reflexivity. Qed.

(** ** Applying updates *)

Lemma dict_get_absent (k : Z) (d : pydict) : k ∉ d.*1 -> dict_get k d = None.
Proof.
  induction d as [|[k0 v0] d IH]; simpl; [reflexivity|].
  rewrite not_elem_of_cons. intros [Hne Hd].
  destruct (Z.eqb_spec k k0); [contradiction | auto].
Qed.

Lemma run_statements_lookup (d : pydict) :
  NoDup d.*1 -> forall tbl id,
    run_statements tbl d !! id
    = match dict_get id d with
      | Some ts => (fun _ => SqlInt ts) <$> tbl !! id
      | None => tbl !! id
      end.
Proof.
  unfold run_statements.
  induction d as [|[k v] d IH]; simpl; intros Hd tbl id; [reflexivity|].
  apply NoDup_cons in Hd as [Hk Hd]. rewrite (IH Hd).
  destruct (Z.eqb_spec id k) as [->|Hne].
  - rewrite (dict_get_absent _ _ Hk). apply lookup_alter_eq.
  - rewrite lookup_alter_ne by congruence. reflexivity.
Qed.

Lemma apply_items_table (d : pydict) :
  forall db tbl n, metadata_items db = Some tbl ->
    apply_items d db n
    = (with_table db (run_statements tbl d), n + Z.of_nat (length d)).
Proof.
  unfold run_statements.
  induction d as [|[k v] d IH]; intros db tbl n Htbl; simpl.
  - unfold with_table. rewrite <- Htbl, Z.add_0_r. destruct db; reflexivity.
  - unfold execute_update. rewrite Htbl.
    rewrite (IH _ (alter (fun _ => SqlInt v) k tbl)) by reflexivity.
    unfold with_table. simpl. f_equal. lia.
Qed.

Lemma apply_items_no_table (d : pydict) :
  forall db n, metadata_items db = None -> apply_items d db n = (db, n).
Proof.
  induction d as [|[k v] d IH]; intros db n Htbl; simpl; [reflexivity|].
  unfold execute_update. rewrite Htbl. apply IH, Htbl.
Qed.

Lemma import_rows_summary (clk : clock) (fix_invalid_dates : bool)
    (rows : list csv_row) (d : pydict) :
  import_rows clk fix_invalid_dates rows [] = Ok d ->
  NoDup d.*1
  /\ forall id, dict_get id d
                = last_for id (omap (row_candidate clk fix_invalid_dates) rows).
Proof.
  intros H. apply import_rows_fold in H. subst d. split.
  - apply fold_dict_set_nodup. constructor.
  - intros id. rewrite fold_dict_set_get.
    destruct (last_for id _); reflexivity.
Qed.



(** ** The writer's loop *)

Lemma write_updates_raises (clk : clock) (fix_invalid_dates : bool)
    (updates : list (Z * Z)) :
  writer_raises clk fix_invalid_dates updates = true ->
  forall db n, is_ok (write_updates clk fix_invalid_dates updates db n) = false.
Proof.
  unfold writer_raises. destruct fix_invalid_dates; [|discriminate]. simpl.
  induction updates as [|[mtime id] updates IH]; simpl; [discriminate|].
  intros H db n. destruct (datetime_fromtimestamp clk mtime) as [dt|e]; simpl in *;
    [|reflexivity].
  destruct (year_invalid clk dt); [apply IH, H|].
  destruct (execute_update db mtime id); apply IH, H.
Qed.

Lemma write_updates_ok (clk : clock) (fix_invalid_dates : bool)
    (updates : list (Z * Z)) :
  writer_raises clk fix_invalid_dates updates = false ->
  forall db n,
    write_updates clk fix_invalid_dates updates db n
    = match metadata_items db with
      | Some tbl =>
          let applied :=
            List.filter (fun u => passes_validation clk fix_invalid_dates u.1)
              updates in
          Ok (with_table db (run_statements tbl ((fun u => (u.2, u.1)) <$> applied)),
              n + Z.of_nat (length applied))
      | None => Ok (db, n)
      end.
Proof.
  unfold writer_raises, passes_validation, run_statements.
  induction updates as [|[mtime id] updates IH]; intros Hr db n.
  - simpl. destruct db as [[tbl|] other]; simpl; [|reflexivity].
    unfold with_table. simpl. rewrite Z.add_0_r. reflexivity.
  - assert (Hrest : fix_invalid_dates
        && existsb (fun u => negb (is_ok (datetime_fromtimestamp clk u.1))) updates
        = false).
    { destruct fix_invalid_dates; [|reflexivity]. simpl in *.
      apply orb_false_iff in Hr as [_ Hr]. exact Hr. }
    assert (Hskip :
      (if fix_invalid_dates then
         datetime_fromtimestamp clk mtime ≫= fun dt => Ok (year_invalid clk dt)
       else Ok false)
      = Ok (negb (negb fix_invalid_dates
                  || match datetime_fromtimestamp clk mtime with
                     | Ok dt => negb (year_invalid clk dt)
                     | Raise _ => false
                     end))).
    { destruct fix_invalid_dates; [|reflexivity]. simpl in *.
      apply orb_false_iff in Hr as [Hr _].
      destruct (datetime_fromtimestamp clk mtime); [|discriminate Hr]. simpl.
      rewrite negb_involutive. reflexivity. }
    simpl. rewrite Hskip. simpl.
    destruct (negb fix_invalid_dates || _) eqn:Hpass; simpl.
    + unfold execute_update.
      destruct (metadata_items db) as [tbl|] eqn:Htbl.
      * rewrite (IH Hrest). simpl. unfold with_table. simpl.
        f_equal. f_equal. lia.
      * rewrite (IH Hrest), Htbl. reflexivity.
    + rewrite (IH Hrest). reflexivity.
Qed.

Lemma nonempty_length {A} (l : list A) :
  (0 <? 0 + Z.of_nat (length l)) = bool_decide (l <> []).
Proof. destruct l; simpl; [reflexivity|]. apply Z.ltb_lt. lia. Qed.






Example import_all_rows_missing_fails :
  (create_db_from_csv clock_2026 example_files
     (Some [ [("id", "1"); ("file_exists", "false"); ("new_updated_at", "1234567890")];
             [("id", "2"); ("file_exists", "false"); ("new_updated_at", "1234567890")] ])
     "/plex/library.db" "/tmp/out.db" true).1 = false.
Proof. vm_compute. reflexivity. Qed.

(** ** The source file *)










(** ** The round trip *)

Lemma filter_all {A} (f : A -> bool) (l : list A) :
  (forall x, x ∈ l -> f x = true) -> List.filter f l = l.
Proof.
  induction l as [|x l IH]; simpl; intros H; [reflexivity|].
  rewrite (H x) by apply list_elem_of_here. f_equal. apply IH.
  intros y Hy. apply H. apply list_elem_of_further, Hy.
Qed.






Section RoundTrip.

Context (clk : clock) (mapper : PlexPathMapper) (fs : gmap string fnode)
  (fix_invalid_dates : bool).

Lemma row_update_id (rows : list join_row) (u : Z * Z) :
  u ∈ omap (row_update clk mapper fs) rows -> u.2 ∈ r_id <$> rows.
Proof.
  rewrite list_elem_of_omap. intros (r & Hr & Hu). unfold row_update in Hu.
  destruct (get_file_info clk mapper fs (file_path_of r)) as [[[t|] a] [|]];
    try discriminate Hu.
  injection Hu as <-. simpl. apply list_elem_of_fmap. eauto.
Qed.

Lemma get_recent_media_unlimited (catalog : list join_row) (limit : Z)
    (sort_by : string) (entries : list entry) (updates : list (Z * Z)) :
  Z.of_nat (length catalog) <= limit ->
  get_recent_media clk mapper fs catalog limit sort_by = Ok (entries, updates) ->
  updates = omap (row_update clk mapper fs) (recent_media_query catalog).
Proof.
  intros Hlimit H.
  destruct (get_recent_media_unfold _ _ _ _ _ _ _ _ H) as (es & Hids & _ & He & Hu).
  assert (Hlen : (length es <= length catalog)%nat).
  { rewrite <- (length_fmap item_id es), Hids, length_fmap.
    unfold recent_media_query. apply List.filter_length_le. }
  rewrite slice_to_all in He
    by (rewrite (Permutation_length (_sort_entries_perm es sort_by)); lia).
  rewrite Hu. apply filter_all. intros u Hin.
  apply bool_decide_eq_true, elem_of_list_to_set.
  rewrite He, (fmap_Permutation item_id _ _ (_sort_entries_perm es sort_by)), Hids.
  apply (row_update_id _ _ Hin).
Qed.




End RoundTrip.



(** * Properties of the rest of the program *)

(** ** The writers, statement by statement *)

Lemma run_statements_last (l : list (Z * Z)) (tbl : gmap Z sqlval) :
  table_after tbl (run_statements tbl l) l.
Proof.
  unfold table_after, run_statements. revert tbl.
  induction l as [|[k v] l IH]; intros tbl id; simpl; [reflexivity|].
  rewrite IH. destruct (last_for id l) as [ts|].
  - destruct (decide (id = k)) as [->|Hne].
    + rewrite lookup_alter_eq. destruct (tbl !! k); reflexivity.
    + rewrite lookup_alter_ne by congruence. reflexivity.
  - destruct (Z.eqb_spec id k) as [->|Hne].
    + apply lookup_alter_eq.
    + apply lookup_alter_ne. congruence.
Qed.


Lemma table_after_unique (tbl t1 t2 : gmap Z sqlval) (stmts : list (Z * Z)) :
  table_after tbl t1 stmts -> table_after tbl t2 stmts -> t1 = t2.
Proof. intros H1 H2. apply map_eq. intros id. rewrite (H1 id), (H2 id). reflexivity. Qed.

Lemma last_for_elem_of (id ts : Z) (l : list (Z * Z)) :
  last_for id l = Some ts -> (id, ts) ∈ l.
Proof.
  induction l as [|[k v] l IH]; simpl; [discriminate|].
  destruct (last_for id l) as [ts'|].
  - intros [= ->]. apply list_elem_of_further, IH. reflexivity.
  - destruct (Z.eqb_spec id k) as [->|]; [|discriminate].
    intros [= ->]. apply list_elem_of_here.
Qed.

Lemma with_table_id (db : database) (tbl : gmap Z sqlval) :
  metadata_items db = Some tbl -> with_table db tbl = db.
Proof. intros H. destruct db as [m o]. simpl in H. subst m. reflexivity. Qed.

Lemma database_at_insert_id (files : gmap string file_content) (path : string)
    (db : database) :
  database_at files path = Some db -> <[path := Sqlite db]> files = files.
Proof.
  unfold database_at. intros H. apply insert_id.
  destruct (files !! path) as [[b|db']|]; congruence.
Qed.

(** The whole of [update_database_copy] once the copy step has left a
    database at the output path. *)
Lemma update_database_copy_run (clk : clock) (tool : backup_tool)
    (files files1 : gmap string file_content) (db_path : string)
    (updates : list (Z * Z)) (output_path : string) (fix_invalid_dates : bool)
    (db : database) :
  (copy_database tool files db_path output_path).1 = Ok files1 ->
  database_at files1 output_path = Some db ->
  update_database_copy clk tool files db_path updates output_path fix_invalid_dates
  = if writer_raises clk fix_invalid_dates updates then (false, files1)
    else match metadata_items db with
         | None => (false, files1)
         | Some tbl =>
             (bool_decide (valid_statements clk fix_invalid_dates updates <> []),
              <[output_path :=
                  Sqlite (with_table db
                            (run_statements tbl
                               (valid_statements clk fix_invalid_dates updates)))]>
                files1)
         end.
Proof.
  intros Hcopy Hdb. unfold update_database_copy.
  destruct (copy_database tool files db_path output_path) as [r files1'].
  simpl in Hcopy. subst r. unfold connect.
  pose proof Hdb as Hat. unfold database_at in Hdb.
  destruct (files1 !! output_path) as [[b|db0]|]; try discriminate Hdb.
  injection Hdb as ->.
  destruct (writer_raises clk fix_invalid_dates updates) eqn:Hr.
  - pose proof (write_updates_raises _ _ _ Hr db 0) as Hraise.
    destruct (write_updates clk fix_invalid_dates updates db 0) as [[db' n]|];
      [discriminate Hraise | reflexivity].
  - rewrite (write_updates_ok _ _ _ Hr).
    destruct (metadata_items db) as [tbl|] eqn:Htbl.
    + cbv zeta. unfold commit, valid_statements. f_equal.
      rewrite nonempty_length. apply bool_decide_ext.
      split; intros H E; apply H.
      * apply fmap_nil_inv in E. exact E.
      * rewrite E. reflexivity.
    + unfold commit. rewrite (database_at_insert_id _ _ _ Hat). reflexivity.
Qed.

(** The whole of [create_db_from_csv] once the template has been copied. *)
Lemma create_db_from_csv_run (clk : clock) (files : gmap string file_content)
    (rows : list csv_row) (template output : string) (fix_invalid_dates : bool)
    (db : database) :
  database_at files template = Some db ->
  template <> output ->
  create_db_from_csv clk files (Some rows) template output fix_invalid_dates
  = match import_rows clk fix_invalid_dates rows [] with
    | Raise _ => (false, <[output := Sqlite db]> files)
    | Ok d =>
        match metadata_items db with
        | None => (false, <[output := Sqlite db]> files)
        | Some tbl =>
            (bool_decide (d <> []),
             <[output := Sqlite (with_table db (run_statements tbl d))]> files)
        end
    end.
Proof.
  intros Hdb Hne. unfold create_db_from_csv, copy2.
  unfold database_at in Hdb.
  destruct (files !! template) as [[b|db0]|]; try discriminate Hdb.
  injection Hdb as ->. destruct (decide (template = output)); [contradiction|].
  destruct (import_rows clk fix_invalid_dates rows []) as [d|e]; [|reflexivity].
  unfold connect. rewrite lookup_insert_eq.
  destruct (metadata_items db) as [tbl|] eqn:Htbl.
  - destruct d as [|kv d0] eqn:Ed.
    + unfold run_statements. simpl. rewrite (with_table_id _ _ Htbl).
      reflexivity.
    + cbv beta iota. rewrite <- Ed.
      rewrite (apply_items_table _ _ _ 0 Htbl). unfold commit.
      rewrite insert_insert_eq, nonempty_length. reflexivity.
  - destruct d as [|kv d0] eqn:Ed; [reflexivity|].
    cbv beta iota. rewrite <- Ed.
    rewrite (apply_items_no_table _ _ 0 Htbl). unfold commit.
    rewrite insert_insert_eq. reflexivity.
Qed.

Lemma passes_validation_in_window (clk : clock) (ts : Z) :
  passes_validation clk true ts = true -> in_window clk ts.
Proof.
  unfold passes_validation, in_window, year_invalid. simpl.
  destruct (datetime_fromtimestamp clk ts) as [dt|] eqn:Hdt; [|discriminate].
  apply fromtimestamp_ok in Hdt. subst dt. intros H.
  apply negb_true_iff, orb_false_iff in H as [H1 H2].
  apply Z.ltb_ge in H1, H2. lia.
Qed.

Lemma valid_statements_elem (clk : clock) (fix_invalid_dates : bool)
    (updates : list (Z * Z)) (id ts : Z) :
  (id, ts) ∈ valid_statements clk fix_invalid_dates updates
  <-> (ts, id) ∈ updates /\ passes_validation clk fix_invalid_dates ts = true.
Proof.
  unfold valid_statements. rewrite list_elem_of_fmap. split.
  - intros ([t i] & [= -> ->] & Hin).
    apply list_elem_of_In, filter_In in Hin as [Hin Hp].
    split; [apply list_elem_of_In, Hin | exact Hp].
  - intros [Hin Hp]. exists (ts, id). split; [reflexivity|].
    apply list_elem_of_In, filter_In. split; [apply list_elem_of_In, Hin | exact Hp].
Qed.



(** X2. With validation on, [update_database_copy] never writes a
    timestamp outside the validity window: whatever the run does, each
    value of the table at the output path afterwards is the value the
    copied table had for that id, or the timestamp of an update of the
    list for that id whose year lies in the window. *)
Theorem writer_never_writes_invalid_timestamp (clk : clock) (tool : backup_tool)
    (files files1 : gmap string file_content) (db_path : string)
    (updates : list (Z * Z)) (output_path : string)
    (db db' : database) (tbl tbl' : gmap Z sqlval) (id : Z) (v : sqlval) :
  (copy_database tool files db_path output_path).1 = Ok files1 ->
  database_at files1 output_path = Some db ->
  metadata_items db = Some tbl ->
  database_at (update_database_copy clk tool files db_path updates output_path
                 true).2 output_path = Some db' ->
  metadata_items db' = Some tbl' ->
  tbl' !! id = Some v ->
  tbl !! id = Some v
  \/ exists ts, v = SqlInt ts /\ (ts, id) ∈ updates /\ in_window clk ts.
Proof.
  intros Hcopy Hdb Htbl Hout Htbl' Hv.
  rewrite (update_database_copy_run _ _ _ _ _ _ _ _ _ Hcopy Hdb), Htbl in Hout.
  destruct (writer_raises clk true updates).
  - simpl in Hout. rewrite Hdb in Hout. injection Hout as <-.
    left. congruence.
  - unfold database_at in Hout. cbn [snd] in Hout.
    rewrite lookup_insert_eq in Hout. injection Hout as <-.
    simpl in Htbl'. injection Htbl' as <-.
    rewrite (run_statements_last (valid_statements clk true updates) tbl id) in Hv.
    destruct (last_for id (valid_statements clk true updates)) as [ts|] eqn:Hlast;
      [|left; exact Hv].
    right. exists ts. apply last_for_elem_of, valid_statements_elem in Hlast
      as [Hin Hp].
    destruct (tbl !! id); [|discriminate Hv]. injection Hv as <-.
    split; [reflexivity|]. split; [exact Hin|].
    apply passes_validation_in_window, Hp.
Qed.

Lemma writer_never_writes_invalid_timestamp_witness :
  example_table !! 1 = Some (SqlInt 1234567890)
  \/ exists ts, SqlInt 1234567890 = SqlInt ts /\ (ts, 1) ∈ [(4070908800, 1)]
                /\ in_window clock_2026 ts.
Proof.
  apply (writer_never_writes_invalid_timestamp clock_2026 no_tool example_files
           (<["/tmp/out.db" := Sqlite example_database]> example_files)
           "/plex/library.db" [(4070908800, 1)] "/tmp/out.db"
           example_database example_database
           example_table example_table 1 (SqlInt 1234567890));
    vm_compute; reflexivity.
Defined.



(** ** Sorting *)

Lemma insert_desc_descending {A} (key : A -> Z) (x : A) (l : list A) :
  descending key l -> descending key (insert_desc key x l).
Proof.
  unfold descending. induction 1 as [|y l Hl IH Hy]; simpl.
  - repeat constructor.
  - destruct (Z.leb_spec (key y) (key x)) as [Hle|Hgt].
    + constructor; [constructor; assumption|].
      constructor; [exact Hle|].
      eapply Forall_impl; [exact Hy|]. simpl. intros z Hz. lia.
    + constructor; [exact IH|].
      rewrite (insert_desc_perm key x l). constructor; [lia | exact Hy].
Qed.

Lemma sorted_desc_descending {A} (key : A -> Z) (l : list A) :
  descending key (sorted_desc key l).
Proof.
  induction l as [|x l IH]; simpl; [constructor|].
  apply insert_desc_descending, IH.
Qed.

Lemma insert_desc_stable {A} (key : A -> Z) (x : A) (l : list A) (k : Z) :
  List.filter (fun e => key e =? k) (insert_desc key x l)
  = List.filter (fun e => key e =? k) (x :: l).
Proof.
  induction l as [|y l IH]; simpl; [reflexivity|].
  destruct (Z.leb_spec (key y) (key x)) as [Hle|Hgt]; [reflexivity|].
  simpl. rewrite IH. simpl.
  destruct (Z.eqb_spec (key x) k) as [Hx|Hx]; [|reflexivity].
  destruct (Z.eqb_spec (key y) k) as [Hy|Hy]; [lia | reflexivity].
Qed.

Lemma sorted_desc_stable {A} (key : A -> Z) (l : list A) (k : Z) :
  List.filter (fun e => key e =? k) (sorted_desc key l)
  = List.filter (fun e => key e =? k) l.
Proof.
  induction l as [|x l IH]; simpl; [reflexivity|].
  rewrite insert_desc_stable. simpl. rewrite IH. reflexivity.
Qed.

Lemma _sort_entries_key (entries : list entry) (sort_by : string) :
  match sort_key sort_by with
  | Some key => _sort_entries entries sort_by = sorted_desc key entries
  | None => _sort_entries entries sort_by = entries
  end.
Proof.
  unfold sort_key, _sort_entries.
  repeat (destruct (String.eqb sort_by _); [reflexivity|]). reflexivity.
Qed.

(** X4. [_sort_entries] returns a rearrangement of its input; for the
    four known fields it is in descending order of the field (a missing
    value counting as [datetime.min]) and entries with equal keys keep the
    order they had in the input; for any other field the input comes back
    unchanged. *)
Theorem sort_entries_descending_stable (entries : list entry) (sort_by : string) :
  _sort_entries entries sort_by ≡ₚ entries
  /\ match sort_key sort_by with
     | Some key =>
         descending key (_sort_entries entries sort_by)
         /\ forall k, List.filter (fun e => key e =? k) (_sort_entries entries sort_by)
                      = List.filter (fun e => key e =? k) entries
     | None => _sort_entries entries sort_by = entries
     end.
Proof.
  split; [apply _sort_entries_perm|].
  pose proof (_sort_entries_key entries sort_by) as H.
  destruct (sort_key sort_by) as [key|]; [|exact H]. rewrite H.
  split; [apply sorted_desc_descending | apply sorted_desc_stable].
Qed.

(** ** The entries of the reconciliation pass *)

Section Entries.

Context (clk : clock) (mapper : PlexPathMapper) (fs : gmap string fnode).

Lemma row_update_id_of (r : join_row) (u : Z * Z) :
  row_update clk mapper fs r = Some u -> u.2 = r_id r.
Proof.
  unfold row_update.
  destruct (get_file_info clk mapper fs (file_path_of r)) as [[[t|] a] [|]];
    try discriminate.
  intros [= <-]. reflexivity.
Qed.


Lemma reconcile_row_entry (r : join_row) (acc acc' : list entry * list (Z * Z)) :
  reconcile_row clk mapper fs r acc = Ok acc' ->
  exists e, entry_matches clk mapper fs e r
            /\ acc' = (acc.1 ++ [e], acc.2 ++ option_list (row_update clk mapper fs r)).
Proof.
  unfold entry_matches, entry_update, reconcile_row, row_update.
  destruct (_create_entry clk r) as [e|err] eqn:He; simpl; [|discriminate].
  assert (He' : item_id e = r_id r /\ plex_path e = file_path_of r
                /\ file_mtime e = None /\ file_exists e = false).
  { unfold _create_entry in He.
    destruct (convert_timestamp clk (r_added_at r)); simpl in He; [|discriminate].
    destruct (convert_timestamp clk (r_created_at r)); simpl in He; [|discriminate].
    destruct (convert_timestamp clk (r_updated_at r)); simpl in He; [|discriminate].
    injection He as <-. auto. }
  destruct He' as (Hid & Hpath & Hm & Hex).
  destruct (get_file_info_cases clk mapper fs (file_path_of r))
    as [-> | (t & a & -> & _)]; simpl; intros [= <-].
  - exists e. rewrite Hm, Hex, app_nil_r.
    split; [repeat split; assumption || reflexivity | reflexivity].
  - eexists. split; [|reflexivity]. simpl. rewrite Hid.
    repeat split; assumption || reflexivity.
Qed.

Lemma reconcile_rows_entries (rows : list join_row) :
  forall acc res,
    reconcile_rows clk mapper fs rows acc = Ok res ->
    exists es, Forall2 (entry_matches clk mapper fs) es rows
               /\ res = (acc.1 ++ es, acc.2 ++ omap (row_update clk mapper fs) rows).
Proof.
  induction rows as [|r rows IH]; intros acc res H; simpl in H.
  - injection H as <-. exists []. rewrite !app_nil_r. destruct acc. auto.
  - destruct (reconcile_row clk mapper fs r acc) as [acc1|] eqn:Hrow;
      simpl in H; [|discriminate H].
    destruct (reconcile_row_entry _ _ _ Hrow) as (e & He & ->).
    destruct (IH _ _ H) as (es & Hes & ->). exists (e :: es).
    split; [constructor; assumption|]. cbn [fst snd].
    rewrite <- !app_assoc. simpl.
    destruct (row_update clk mapper fs r); reflexivity.
Qed.

Lemma entries_updates (es : list entry) (rows : list join_row) :
  Forall2 (entry_matches clk mapper fs) es rows ->
  omap entry_update es = omap (row_update clk mapper fs) rows
  /\ item_id <$> es = r_id <$> rows
  /\ Forall (fun e => file_exists e = bool_decide (is_Some (file_mtime e))) es.
Proof.
  induction 1 as [|e r es rows (Hid & _ & Hu & Hex) _ (IH1 & IH2 & IH3)].
  - repeat split. constructor.
  - split; [|split].
    + simpl. rewrite Hu.
      destruct (row_update clk mapper fs r); [f_equal|]; exact IH1.
    + rewrite !fmap_cons, Hid, IH2. reflexivity.
    + constructor; assumption.
Qed.

(** What [get_recent_media] returns, in terms of the entries built for the
    selected rows. *)
Lemma get_recent_media_shape (catalog : list join_row) (limit : Z)
    (sort_by : string) (entries : list entry) (updates : list (Z * Z)) :
  get_recent_media clk mapper fs catalog limit sort_by = Ok (entries, updates) ->
  exists es,
    Forall2 (entry_matches clk mapper fs) es (recent_media_query catalog)
    /\ entries = slice_to (_sort_entries es sort_by) limit
    /\ updates = List.filter
         (fun u => bool_decide (u.2 ∈ (list_to_set (item_id <$> entries) : gset Z)))
         (omap entry_update es).
Proof.
  unfold get_recent_media. intros H.
  destruct (reconcile_rows clk mapper fs (recent_media_query catalog) ([], []))
    as [[es us]|] eqn:Hrun; simpl in H; [|discriminate H].
  destruct (reconcile_rows_entries _ _ _ Hrun) as (es' & Hes & [= -> ->]).
  simpl in H. injection H as <- <-. exists es'.
  destruct (entries_updates _ _ Hes) as (-> & _ & _). auto.
Qed.

End Entries.

(** ** What the reconciliation pass returns *)

Lemma descending_take {A} (key : A -> Z) (l : list A) (n : nat) :
  descending key l -> descending key (take n l).
Proof.
  unfold descending. intros H. rewrite <- (take_drop n l) in H.
  eapply StronglySorted_app_1_l, H.
Qed.

Lemma slice_to_take {A} (l : list A) (limit : Z) :
  exists n, slice_to l limit = take n l.
Proof. unfold slice_to. destruct (0 <=? limit); eauto. Qed.

Lemma slice_to_count {A} (l : list A) (limit : Z) :
  Z.of_nat (length (slice_to l limit))
  = if 0 <=? limit then Z.min limit (Z.of_nat (length l))
    else Z.max 0 (Z.of_nat (length l) + limit).
Proof.
  unfold slice_to. destruct (Z.leb_spec 0 limit); rewrite length_take; lia.
Qed.

(** X5. Whenever [get_recent_media] returns: for a limit [k >= 0] it
    returns [min(k, n)] entries, [n] being the number of selected rows,
    and for a negative limit [max(0, n + k)] entries; for the four known
    sort fields the returned entries are in descending order of the field;
    and every returned entry was built for a selected row (a row with a
    title and a non-empty path), with its id, its path and its probe
    result, its [file_exists] flag telling whether it has a file time. *)
Theorem get_recent_media_entries (clk : clock) (mapper : PlexPathMapper)
    (fs : gmap string fnode) (catalog : list join_row) (limit : Z)
    (sort_by : string) (entries : list entry) (updates : list (Z * Z)) :
  get_recent_media clk mapper fs catalog limit sort_by = Ok (entries, updates) ->
  Z.of_nat (length entries)
  = (if 0 <=? limit
     then Z.min limit (Z.of_nat (length (recent_media_query catalog)))
     else Z.max 0 (Z.of_nat (length (recent_media_query catalog)) + limit))
  /\ (forall key, sort_key sort_by = Some key -> descending key entries)
  /\ Forall (fun e => exists r, r ∈ recent_media_query catalog
                                /\ entry_matches clk mapper fs e r) entries.
Proof.
  intros H.
  destruct (get_recent_media_shape _ _ _ _ _ _ _ _ H) as (es & Hes & -> & _).
  split; [|split].
  - rewrite slice_to_count.
    rewrite (Permutation_length (_sort_entries_perm es sort_by)).
    rewrite (Forall2_length _ _ _ Hes). reflexivity.
  - intros key Hkey. destruct (slice_to_take (_sort_entries es sort_by) limit)
      as [n ->].
    apply descending_take.
    pose proof (_sort_entries_key es sort_by) as Hs. rewrite Hkey in Hs.
    rewrite Hs. apply sorted_desc_descending.
  - destruct (slice_to_take (_sort_entries es sort_by) limit) as [n ->].
    apply Forall_take. rewrite (_sort_entries_perm es sort_by).
    apply Forall_forall. intros e He.
    apply list_elem_of_lookup in He as [i Hi].
    destruct (Forall2_lookup_l _ _ _ _ _ Hes Hi) as (r & Hr & Hm).
    exists r. split; [eapply list_elem_of_lookup_2, Hr | exact Hm].
Qed.



Section UnlimitedPass.

Context (clk : clock) (mapper : PlexPathMapper) (fs : gmap string fnode)
  (catalog : list join_row) (limit : Z) (sort_by : string)
  (entries : list entry) (updates : list (Z * Z)).

Hypothesis Hlimit : Z.of_nat (length catalog) <= limit.
Hypothesis Hrun :
  get_recent_media clk mapper fs catalog limit sort_by = Ok (entries, updates).

Lemma unlimited_shape :
  exists es,
    Forall2 (entry_matches clk mapper fs) es (recent_media_query catalog)
    /\ entries ≡ₚ es
    /\ updates = omap entry_update es
    /\ updates = omap (row_update clk mapper fs) (recent_media_query catalog).
Proof.
  destruct (get_recent_media_shape _ _ _ _ _ _ _ _ Hrun) as (es & Hes & He & _).
  pose proof (get_recent_media_unlimited _ _ _ _ _ _ _ _ Hlimit Hrun) as Hu.
  exists es. split; [exact Hes|].
  destruct (entries_updates _ _ _ _ _ Hes) as (Hup & _ & _).
  split; [|split; [congruence | exact Hu]].
  rewrite He, slice_to_all; [apply _sort_entries_perm|].
  rewrite (Permutation_length (_sort_entries_perm es sort_by)).
  rewrite (Forall2_length _ _ _ Hes).
  pose proof (List.filter_length_le
                (fun r => bool_decide (is_Some (r_title r)) && has_file r) catalog).
  unfold recent_media_query. lia.
Qed.


(** X6. After a pass whose limit is at least the number of records, the
    filter [main] applies before writing keeps every update: each update
    has an entry with its id whose file exists. *)
Theorem valid_updates_unlimited : valid_updates entries updates = updates.
Proof.
  destruct unlimited_shape as (es & Hes & Hperm & Hu & _).
  destruct (entries_updates _ _ _ _ _ Hes) as (_ & _ & Hex).
  unfold valid_updates. apply filter_all. intros u Hin.
  rewrite Hu in Hin. apply list_elem_of_omap in Hin as (e & He & Heu).
  apply existsb_exists. exists e. split.
  - apply list_elem_of_In. rewrite Hperm. exact He.
  - rewrite Forall_forall in Hex. rewrite (Hex e He).
    unfold entry_update in Heu. destruct (file_mtime e) as [t|]; [|discriminate].
    injection Heu as <-. simpl. rewrite Z.eqb_refl. reflexivity.
Qed.


End UnlimitedPass.

Lemma get_recent_media_entries_witness :
  Z.of_nat (length (match get_recent_media clock_2026 example_mapper example_fs
                            example_catalog 2 "file_mtime" with
                    | Ok res => res.1 | Raise _ => [] end)) = 2.
Proof.
  destruct (get_recent_media clock_2026 example_mapper example_fs
              example_catalog 2 "file_mtime") as [[es us]|] eqn:Hrun;
    [|vm_compute in Hrun; discriminate Hrun].
  destruct (get_recent_media_entries clock_2026 example_mapper example_fs
              example_catalog 2 "file_mtime" es us Hrun) as [H _].
  exact H.
Defined.

Lemma valid_updates_unlimited_witness :
  match get_recent_media clock_2026 example_mapper example_fs
          example_catalog 4 "file_mtime" with
  | Ok res => valid_updates res.1 res.2 = res.2
  | Raise _ => False
  end.
Proof.
  destruct (get_recent_media clock_2026 example_mapper example_fs
              example_catalog 4 "file_mtime") as [[es us]|] eqn:Hrun;
    [|vm_compute in Hrun; discriminate Hrun].
  apply (valid_updates_unlimited clock_2026 example_mapper example_fs
           example_catalog 4 "file_mtime" es us); [vm_compute; discriminate|].
  exact Hrun.
Defined.


(** ** Replaying the export against writing directly *)





(** ** The probe and the path analysis *)










(** ** The CSV analysis *)



Lemma count_of_cons {A} (f : A -> bool) (x : A) (l : list A) :
  count_of f (x :: l) = (if f x then 1 else 0) + count_of f l.
Proof.
  unfold count_of. cbn [List.filter]. destruct (f x); cbn [length]; lia.
Qed.

Lemma count_of_mono {A} (f g : A -> bool) (l : list A) :
  (forall x, x ∈ l -> f x = true -> g x = true) -> count_of f l <= count_of g l.
Proof.
  induction l as [|x l IH]; intros H; [reflexivity|].
  rewrite !count_of_cons.
  assert (IH' : count_of f l <= count_of g l)
    by (apply IH; intros y Hy; apply H, list_elem_of_further, Hy).
  pose proof (H x (list_elem_of_here _ _)) as Hx.
  destruct (f x); [rewrite (Hx eq_refl); lia|]. destruct (g x); lia.
Qed.

Lemma count_of_negb {A} (f : A -> bool) (l : list A) :
  count_of f l + count_of (fun x => negb (f x)) l = Z.of_nat (length l).
Proof.
  induction l as [|x l IH]; [reflexivity|].
  rewrite !count_of_cons, length_cons. destruct (f x); simpl negb; lia.
Qed.

Lemma count_of_fmap {A B} (g : A -> B) (f : B -> bool) (l : list A) :
  count_of f (g <$> l) = count_of (fun x => f (g x)) l.
Proof.
  induction l as [|x l IH]; [reflexivity|].
  rewrite fmap_cons, !count_of_cons, IH. reflexivity.
Qed.

Lemma counter_incr_sum (k : string) (d : list (string * Z)) :
  counter_sum (counter_incr k d) = counter_sum d + 1.
Proof.
  unfold counter_sum. induction d as [|[k' n] d IH]; simpl; [lia|].
  destruct (String.eqb k k'); simpl; lia.
Qed.

Lemma analyze_rows (rows : list csv_row) (st : csv_analysis) :
  let res := foldl analyze_row st rows in
  total_records res = total_records st + Z.of_nat (length rows)
  /\ files_exist res = files_exist st + count_of row_exists rows
  /\ paths_mapped res = paths_mapped st + count_of row_mapped rows
  /\ updates_pending res = updates_pending st + count_of row_pending rows
  /\ counter_sum (libraries res)
     = counter_sum (libraries st) + Z.of_nat (length rows).
Proof.
  revert st. induction rows as [|row rows IH]; intros st; cbn [foldl].
  - cbn zeta. unfold count_of. cbn [List.filter length]. lia.
  - specialize (IH (analyze_row st row)). cbn zeta in IH |- *.
    destruct IH as (-> & -> & -> & -> & ->).
    rewrite !count_of_cons, length_cons.
    unfold analyze_row at 1 2 3 4 5.
    cbn [total_records files_exist paths_mapped updates_pending libraries].
    rewrite counter_incr_sum. unfold row_exists, row_mapped, row_pending.
    repeat split; try lia.
    + destruct (bool_decide (row_get row "file_exists" = Some "true")); lia.
    + destruct (bool_decide (row_get row "path_was_mapped" = Some "true")); lia.
    + destruct (bool_decide (row_get row "updated_at"
                             <> row_get row "new_updated_at")); lia.
Qed.

Lemma analyze_csv_unfold (rows : list csv_row) :
  analyze_csv (Some rows)
  = match rows with
    | [] => None
    | _ => Some (foldl analyze_row
                   {| total_records := 0; files_exist := 0; paths_mapped := 0;
                      updates_pending := 0; libraries := [] |} rows)
    end.
Proof.
  unfold analyze_csv.
  destruct (analyze_rows rows
              {| total_records := 0; files_exist := 0; paths_mapped := 0;
                 updates_pending := 0; libraries := [] |}) as (Ht & _).
  cbn zeta in Ht |- *. cbn [total_records] in Ht.
  destruct rows as [|row rows]; [reflexivity|].
  destruct (Z.eqb_spec (total_records
              (foldl analyze_row
                 {| total_records := 0; files_exist := 0; paths_mapped := 0;
                    updates_pending := 0; libraries := [] |} (row :: rows))) 0)
    as [He|_]; [|reflexivity].
  rewrite Ht, length_cons in He. lia.
Qed.


Section ExportAnalysis.

Context (clk : clock) (mapper : PlexPathMapper) (fs : gmap string fnode).

Lemma export_row_exists (r : join_row) :
  row_exists (export_row clk mapper fs r) = row_found clk mapper fs r.
Proof.
  unfold row_exists, row_found, export_row.
  destruct (get_file_info_cases clk mapper fs (file_path_of r))
    as [-> | (t & a & -> & _)]; reflexivity.
Qed.

Lemma export_row_mapped (r : join_row) :
  row_found clk mapper fs r = false ->
  row_mapped (export_row clk mapper fs r) = true.
Proof.
  unfold row_mapped, row_found, export_row.
  destruct (get_file_info_cases clk mapper fs (file_path_of r))
    as [-> | (t & a & -> & _)]; [reflexivity | discriminate].
Qed.

Lemma export_row_pending (r : join_row) :
  row_pending (export_row clk mapper fs r) = true ->
  row_found clk mapper fs r = true.
Proof.
  unfold row_pending, row_found, export_row.
  destruct (get_file_info_cases clk mapper fs (file_path_of r))
    as [-> | (t & a & -> & _)]; [|reflexivity].
  cbn [snd]. intros H. apply bool_decide_eq_true_1 in H.
  exfalso. apply H. reflexivity.
Qed.

(** X13. In the analysis of an export, the total is the number of
    exported records and [files_exist] the number of them whose file the
    probe found; every record whose file was not found is counted under
    "paths mapped", and only records whose file was found are counted
    under "updates pending". *)
Theorem analysis_of_export (catalog : list join_row) (limit : option Z)
    (st : csv_analysis) :
  analyze_csv (Some (export_full_media_data_to_csv clk mapper fs catalog limit))
  = Some st ->
  total_records st = Z.of_nat (length (export_query catalog limit))
  /\ files_exist st
     = count_of (row_found clk mapper fs) (export_query catalog limit)
  /\ total_records st - files_exist st <= paths_mapped st
  /\ updates_pending st <= files_exist st.
Proof.
  intros H. rewrite analyze_csv_unfold in H.
  unfold export_full_media_data_to_csv in H.
  set (rows := export_query catalog limit) in *.
  destruct (export_row clk mapper fs <$> rows) as [|x xs] eqn:Hx;
    [discriminate H|].
  rewrite <- Hx in H. clear Hx x xs. injection H as <-.
  destruct (analyze_rows (export_row clk mapper fs <$> rows)
              {| total_records := 0; files_exist := 0; paths_mapped := 0;
                 updates_pending := 0; libraries := [] |})
    as (-> & -> & -> & -> & _).
  cbn [total_records files_exist paths_mapped updates_pending].
  rewrite length_fmap, !count_of_fmap.
  assert (Hex : count_of (fun r => row_exists (export_row clk mapper fs r)) rows
                = count_of (row_found clk mapper fs) rows).
  { unfold count_of. f_equal. f_equal. apply List.filter_ext.
    intros r. apply export_row_exists. }
  rewrite Hex.
  pose proof (count_of_negb (row_found clk mapper fs) rows) as Hneg.
  pose proof (count_of_mono (fun r => negb (row_found clk mapper fs r))
                (fun r => row_mapped (export_row clk mapper fs r)) rows) as Hm.
  pose proof (count_of_mono (fun r => row_pending (export_row clk mapper fs r))
                (row_found clk mapper fs) rows) as Hp.
  repeat split; try lia.
  - assert (count_of (fun r => negb (row_found clk mapper fs r)) rows
            <= count_of (fun r => row_mapped (export_row clk mapper fs r)) rows).
    { apply Hm. intros r _ Hr. apply export_row_mapped.
      destruct (row_found clk mapper fs r); [discriminate Hr | reflexivity]. }
    lia.
  - assert (count_of (fun r => row_pending (export_row clk mapper fs r)) rows
            <= count_of (row_found clk mapper fs) rows).
    { apply Hp. intros r _ Hr. apply export_row_pending, Hr. }
    lia.
Qed.

End ExportAnalysis.

Lemma analysis_of_export_witness :
  match analyze_csv (Some (export_full_media_data_to_csv clock_2026 example_mapper
                             example_fs example_catalog None)) with
  | Some st => total_records st = 4 /\ files_exist st = 3
  | None => False
  end.
Proof.
  destruct (analyze_csv (Some (export_full_media_data_to_csv clock_2026
                                 example_mapper example_fs example_catalog None)))
    as [st|] eqn:Hrun; [|vm_compute in Hrun; discriminate Hrun].
  destruct (analysis_of_export clock_2026 example_mapper example_fs
              example_catalog None st Hrun) as (Ht & Hf & _).
  split; [exact Ht | exact Hf].
Defined.


(** ** The configuration file *)

Lemma is_space_not_comma (c : ascii) : is_space c = true -> Ascii.eqb c "," = false.
Proof.
  destruct c as [[] [] [] [] [] [] [] []]; vm_compute; congruence.
Qed.

Lemma all_space_no_comma (w : string) : all_space w = true -> has_comma w = false.
Proof.
  induction w as [|c w IH]; simpl; [reflexivity|].
  destruct (is_space c) eqn:Hc; [|discriminate].
  intros H. rewrite (is_space_not_comma c Hc). exact (IH H).
Qed.

Lemma all_space_app (a b : string) :
  all_space (a +:+ b) = all_space a && all_space b.
Proof.
  induction a as [|c a IH]; simpl; [reflexivity|].
  destruct (is_space c); [exact IH | reflexivity].
Qed.

Lemma has_comma_app (a b : string) :
  has_comma (a +:+ b) = has_comma a || has_comma b.
Proof.
  induction a as [|c a IH]; simpl; [reflexivity|].
  rewrite IH. destruct (Ascii.eqb c ","); reflexivity.
Qed.

Lemma lstrip_all_space (w s : string) :
  all_space w = true -> lstrip (w +:+ s) = lstrip s.
Proof.
  induction w as [|c w IH]; simpl; [reflexivity|].
  destruct (is_space c); [exact IH | discriminate].
Qed.

Lemma lstrip_id (s : string) : starts_with_space s = false -> lstrip s = s.
Proof. destruct s as [|c s]; simpl; [reflexivity|]. intros ->. reflexivity. Qed.

Lemma rstrip_all_space (w : string) : all_space w = true -> rstrip w = EmptyString.
Proof.
  induction w as [|c w IH]; simpl; [reflexivity|].
  destruct (is_space c); [|discriminate]. intros H. rewrite (IH H). reflexivity.
Qed.

Lemma rstrip_app_space (t r : string) :
  ends_with_space t = false -> all_space r = true -> rstrip (t +:+ r) = t.
Proof.
  intros Ht Hr. induction t as [|c t IH]; [apply rstrip_all_space, Hr|].
  cbn [String.append rstrip]. destruct t as [|d t].
  - cbn [String.append]. rewrite (rstrip_all_space r Hr).
    simpl in Ht. rewrite Ht. reflexivity.
  - rewrite IH by exact Ht. reflexivity.
Qed.

Lemma strip_of_trimmed (s t : string) : trimmed_of s t -> strip s = t.
Proof.
  intros (l & r & -> & Hl & Hr & Hs & He). unfold strip.
  rewrite (lstrip_all_space l _ Hl).
  destruct t as [|c t].
  - cbn [String.append]. rewrite <- (append_empty_r r), (lstrip_all_space r _ Hr).
    reflexivity.
  - rewrite lstrip_id by exact Hs. apply rstrip_app_space; assumption.
Qed.

Lemma split_once_app (a b : string) :
  has_comma a = false -> split_once "," (a +:+ "," +:+ b) = Some (a, b).
Proof.
  induction a as [|c a IH]; [reflexivity|].
  cbn [has_comma]. intros H. apply orb_false_iff in H as [Hc H].
  specialize (IH H). cbn [String.append split_once] in IH |- *.
  rewrite Hc, IH. reflexivity.
Qed.

Lemma split_once_spec (s a b : string) :
  split_once "," s = Some (a, b) -> s = a +:+ "," +:+ b /\ has_comma a = false.
Proof.
  revert a. induction s as [|c s IH]; intros a; cbn [split_once]; [discriminate|].
  destruct (Ascii.eqb_spec c ",") as [->|Hc].
  - intros [= <- <-]. split; reflexivity.
  - destruct (split_once "," s) as [[a' b']|]; [|discriminate].
    intros [= <- <-]. destruct (IH a' eq_refl) as [-> Ha]. split; [reflexivity|].
    cbn [has_comma]. rewrite Ha. destruct (Ascii.eqb_spec c ","); [contradiction|].
    reflexivity.
Qed.

(** The left side of a line: the old prefix and the whitespace before the
    comma. *)
Lemma line_left (old w : string) :
  starts_with_space old = false -> ends_with_space old = false ->
  has_comma old = false -> startswith old "#" = false -> all_space w = true ->
  exists l a, old +:+ w = l +:+ a /\ all_space l = true
    /\ starts_with_space (a +:+ ",") = false
    /\ startswith (a +:+ ",") "#" = false
    /\ has_comma a = false /\ strip a = old.
Proof.
  intros Hs He Hc Hh Hw. destruct old as [|c old].
  - exists w, EmptyString. rewrite append_empty_r. repeat split; auto.
  - exists EmptyString, (String c old +:+ w). repeat split; auto.
    + rewrite has_comma_app, Hc, (all_space_no_comma w Hw). reflexivity.
    + apply strip_of_trimmed. exists EmptyString, w. repeat split; auto.
Qed.

Lemma ends_with_space_cons (c : ascii) (s : string) :
  s <> EmptyString -> ends_with_space (String c s) = ends_with_space s.
Proof. destruct s; [contradiction | reflexivity]. Qed.

Lemma ends_with_space_app (a b : string) :
  b <> EmptyString -> ends_with_space (a +:+ b) = ends_with_space b.
Proof.
  intros Hb. induction a as [|c a IH]; [reflexivity|].
  cbn [String.append]. rewrite ends_with_space_cons, IH; [reflexivity|].
  destruct a; [exact Hb | discriminate].
Qed.

(** The right side of a line: the whitespace after the comma and the new
    prefix. *)
Lemma line_right (new w : string) :
  starts_with_space new = false -> ends_with_space new = false ->
  all_space w = true ->
  exists b r, w +:+ new = b +:+ r /\ all_space r = true
    /\ ends_with_space ("," +:+ b) = false /\ strip b = new.
Proof.
  intros Hs He Hw. destruct new as [|c new].
  - exists EmptyString, w. rewrite append_empty_r. repeat split; auto.
  - exists (w +:+ String c new), EmptyString. rewrite append_empty_r.
    assert (Hend : ends_with_space (w +:+ String c new) = false)
      by (rewrite ends_with_space_app by discriminate; exact He).
    repeat split; auto.
    + change ("," +:+ (w +:+ String c new)) with (String "," (w +:+ String c new)).
      rewrite ends_with_space_cons; [exact Hend|].
      destruct w; discriminate.
    + apply strip_of_trimmed. exists w, EmptyString.
      rewrite append_empty_r. repeat split; auto.
Qed.

Lemma parse_mapping_line_padded (old new w1 w2 w3 w4 : string) :
  line_rule (old, new) ->
  all_space w1 = true -> all_space w2 = true ->
  all_space w3 = true -> all_space w4 = true ->
  parse_mapping_line (w1 +:+ old +:+ w2 +:+ "," +:+ w3 +:+ new +:+ w4)
  = Some (old, new).
Proof.
  intros (Hos & Hoe & Hns & Hne & Hc & Hh) H1 H2 H3 H4. cbn [fst snd] in *.
  destruct (line_left old w2 Hos Hoe Hc Hh H2)
    as (l & a & Ha & Hl & Has & Hah & Hac & Hsa).
  destruct (line_right new w3 Hns Hne H3) as (b & r & Hb & Hr & Hbe & Hsb).
  assert (Hline : w1 +:+ old +:+ w2 +:+ "," +:+ w3 +:+ new +:+ w4
                  = (w1 +:+ l) +:+ (a +:+ "," +:+ b) +:+ (r +:+ w4)).
  { rewrite <- (append_assoc old w2), Ha, <- (append_assoc w3 new w4), Hb.
    rewrite !append_assoc. reflexivity. }
  assert (Hstrip : strip (w1 +:+ old +:+ w2 +:+ "," +:+ w3 +:+ new +:+ w4)
                   = a +:+ "," +:+ b).
  { apply strip_of_trimmed. exists (w1 +:+ l), (r +:+ w4).
    split; [exact Hline|]. rewrite !all_space_app, H1, Hl, Hr, H4.
    repeat split.
    - destruct a; [reflexivity | exact Has].
    - rewrite ends_with_space_app by discriminate. exact Hbe. }
  unfold parse_mapping_line. rewrite Hstrip.
  destruct (decide (a +:+ "," +:+ b = EmptyString)) as [He|_];
    [destruct a; discriminate He|].
  assert (Hhash : startswith (a +:+ "," +:+ b) "#" = false)
    by (destruct a; [reflexivity | exact Hah]).
  rewrite Hhash, (split_once_app a b Hac), Hsa, Hsb. reflexivity.
Qed.

Lemma parse_mapping_line_rule (line old new : string) :
  parse_mapping_line line = Some (old, new) -> line_rule (old, new).
Proof.
  unfold parse_mapping_line.
  destruct (strip_trimmed line) as (_ & _ & _ & _ & _ & Hls & _).
  destruct (decide (strip line = EmptyString)); [discriminate|].
  destruct (startswith (strip line) "#") eqn:Hhash; [discriminate|].
  destruct (split_once "," (strip line)) as [[a b]|] eqn:Hsplit; [|discriminate].
  intros [= <- <-]. destruct (split_once_spec _ _ _ Hsplit) as [Hline Ha].
  destruct (strip_trimmed a) as (la & ra & Hda & _ & _ & Has & Hae).
  destruct (strip_trimmed b) as (_ & _ & _ & _ & _ & Hbs & Hbe).
  unfold line_rule. cbn [fst snd]. repeat split; auto.
  - rewrite Hda, !has_comma_app in Ha.
    apply orb_false_iff in Ha as [_ Ha]. apply orb_false_iff in Ha as [Ha _].
    exact Ha.
  - destruct a as [|c a]; [reflexivity|].
    rewrite Hline in Hls, Hhash. cbn [String.append starts_with_space] in Hls.
    unfold strip. rewrite lstrip_id by exact Hls.
    cbn [String.append startswith] in Hhash.
    cbn [rstrip]. destruct (rstrip a); [rewrite Hls|]; exact Hhash.
Qed.

(** X14. Every rule loaded from the configuration file comes from one of
    its lines and has no whitespace around either side, no comma in its
    old prefix and no [#] at the start of it. Conversely, a line made of
    such a rule, [old,new], parses to that rule whatever whitespace is put
    around the two sides, and a file that holds one line [old,new] per
    rule loads exactly these rules, in order. *)
Theorem config_rules_round_trip :
  (forall cfg r, r ∈ _load_mappings_from_file cfg ->
     line_rule r
     /\ exists lines line, cfg = Some lines /\ line ∈ lines
                           /\ parse_mapping_line line = Some r)
  /\ (forall old new w1 w2 w3 w4,
        line_rule (old, new) ->
        all_space w1 = true -> all_space w2 = true ->
        all_space w3 = true -> all_space w4 = true ->
        parse_mapping_line (w1 +:+ old +:+ w2 +:+ "," +:+ w3 +:+ new +:+ w4)
        = Some (old, new))
  /\ (forall rules, Forall line_rule rules ->
        _load_mappings_from_file (Some (rule_line <$> rules)) = rules).
Proof.
  split; [|split].
  - intros [lines|] [old new] Hin; [|apply elem_of_nil in Hin; contradiction].
    cbn [_load_mappings_from_file] in Hin.
    apply list_elem_of_omap in Hin as (line & Hline & Hparse).
    split; [eapply parse_mapping_line_rule, Hparse|]. eauto.
  - exact parse_mapping_line_padded.
  - induction 1 as [|[old new] rules Hr _ IH]; [reflexivity|].
    cbn [_load_mappings_from_file] in IH |- *. rewrite fmap_cons.
    change (omap parse_mapping_line (?x :: ?l))
      with (match parse_mapping_line x with
            | Some y => y :: omap parse_mapping_line l
            | None => omap parse_mapping_line l
            end).
    assert (Hp : parse_mapping_line (rule_line (old, new)) = Some (old, new))
      by exact (parse_mapping_line_padded old new EmptyString EmptyString
                  EmptyString newline Hr eq_refl eq_refl eq_refl eq_refl).
    rewrite Hp, IH. reflexivity.
Qed.

Lemma config_rules_round_trip_witness :
  _load_mappings_from_file
    (Some ["/unittest/,/home/unittest/" +:+ newline; "/media,/mnt/media" +:+ newline])
  = [("/unittest/", "/home/unittest/"); ("/media", "/mnt/media")].
Proof.
  destruct config_rules_round_trip as (_ & _ & H).
  apply (H [("/unittest/", "/home/unittest/"); ("/media", "/mnt/media")]).
  repeat constructor.
Defined.

(** ** Catalog timestamps that do not convert *)





(** ** The import and the validity window *)

Lemma row_candidate_window (clk : clock) (row : csv_row) (id ts : Z) :
  row_candidate clk true row = Some (id, ts) ->
  in_window clk ts /\ row_exists row = true.
Proof.
  unfold row_candidate, import_row, row_gate, row_exists.
  destruct (row_get row "file_exists") as [fe|]; [|discriminate].
  destruct (row_get row "new_updated_at") as [nu|]; [|discriminate].
  destruct (String.eqb_spec fe "true") as [->|]; [|discriminate].
  destruct (negb (String.eqb nu EmptyString)); [|discriminate].
  cbn [andb].
  destruct (row_item row "id") as [id_text|e]; cbn [mbind result_bind];
    [|discriminate].
  destruct (py_int id_text) as [k|e]; cbn [mbind result_bind]; [|discriminate].
  destruct (row_item row "new_updated_at") as [ts_text|e];
    cbn [mbind result_bind]; [|discriminate].
  destruct (py_int ts_text) as [v|e]; cbn [mbind result_bind]; [|discriminate].
  destruct (datetime_fromtimestamp clk v) as [dt|e] eqn:Hdt.
  - destruct (year_invalid clk dt) eqn:Hy; [discriminate|].
    cbn [dict_set]. intros [= <- <-]. split; [|reflexivity].
    apply passes_validation_in_window. unfold passes_validation.
    rewrite Hdt, Hy. reflexivity.
  - destruct e; discriminate.
Qed.

(** X16. With validation on, [create_db_from_csv] never writes a
    timestamp outside the validity window: each value of the table at the
    output path afterwards is the value the template had for that id, or
    the timestamp of a row of the CSV for that id whose file exists and
    whose year lies in the window. *)
Theorem import_never_writes_invalid_timestamp (clk : clock)
    (files : gmap string file_content) (rows : list csv_row)
    (template output : string) (db db' : database) (tbl tbl' : gmap Z sqlval)
    (id : Z) (v : sqlval) :
  database_at files template = Some db ->
  template <> output ->
  metadata_items db = Some tbl ->
  database_at (create_db_from_csv clk files (Some rows) template output true).2
    output = Some db' ->
  metadata_items db' = Some tbl' ->
  tbl' !! id = Some v ->
  tbl !! id = Some v
  \/ exists ts row, v = SqlInt ts /\ in_window clk ts /\ row ∈ rows
                    /\ row_exists row = true
                    /\ row_candidate clk true row = Some (id, ts).
Proof.
  intros Hdb Hne Htbl Hout Htbl' Hv.
  rewrite (create_db_from_csv_run _ _ _ _ _ _ db Hdb Hne), Htbl in Hout.
  destruct (import_rows clk true rows []) as [d|e] eqn:Himp.
  - destruct (import_rows_summary _ _ _ _ Himp) as [Hnd Hget].
    unfold database_at in Hout. cbn [snd] in Hout.
    rewrite lookup_insert_eq in Hout. injection Hout as <-.
    simpl in Htbl'. injection Htbl' as <-.
    rewrite (run_statements_lookup d Hnd), Hget in Hv.
    destruct (last_for id (omap (row_candidate clk true) rows)) as [ts|] eqn:Hlast;
      [|left; exact Hv].
    right. apply last_for_elem_of, list_elem_of_omap in Hlast as (row & Hin & Hc).
    destruct (row_candidate_window _ _ _ _ Hc) as [Hw Hex].
    destruct (tbl !! id); [|discriminate Hv]. injection Hv as <-.
    exists ts, row. auto.
  - unfold database_at in Hout. cbn [snd] in Hout.
    rewrite lookup_insert_eq in Hout. injection Hout as <-.
    left. congruence.
Qed.

Lemma import_never_writes_invalid_timestamp_witness :
  example_table !! 1 = Some (SqlInt 1234567890)
  \/ exists ts row, SqlInt 1234567890 = SqlInt ts /\ in_window clock_2026 ts
       /\ row ∈ [[("id", "1"); ("file_exists", "true");
                  ("new_updated_at", "4070908800")]]
       /\ row_exists row = true
       /\ row_candidate clock_2026 true row = Some (1, ts).
Proof.
  apply (import_never_writes_invalid_timestamp clock_2026 example_files
           [[("id", "1"); ("file_exists", "true"); ("new_updated_at", "4070908800")]]
           "/plex/library.db" "/tmp/out.db" example_database example_database
           example_table example_table 1 (SqlInt 1234567890));
    [reflexivity | discriminate | reflexivity | vm_compute; reflexivity
    | reflexivity | reflexivity].
Defined.

(** ** Writing the same updates again *)

Lemma run_statements_idem (tbl : gmap Z sqlval) (l : list (Z * Z)) :
  run_statements (run_statements tbl l) l = run_statements tbl l.
Proof.
  apply (table_after_unique tbl _ _ l); [|apply run_statements_last].
  intros id.
  rewrite (run_statements_last l (run_statements tbl l) id).
  rewrite (run_statements_last l tbl id).
  destruct (last_for id l) as [ts|]; [|reflexivity].
  destruct (tbl !! id); reflexivity.
Qed.

(** X17. Writing is idempotent: when a run of [update_database_copy]
    has applied a list of updates, a second run that takes the output of
    the first as its source, with the same updates and the same flag,
    leaves at its own output a database equal to the output of the first
    run. *)
Theorem writing_twice_changes_nothing (clk : clock) (tool tool2 : backup_tool)
    (files files1 files2 : gmap string file_content)
    (db_path out1 out2 : string) (updates : list (Z * Z))
    (fix_invalid_dates : bool) (db : database) (tbl : gmap Z sqlval) :
  (copy_database tool files db_path out1).1 = Ok files1 ->
  database_at files1 out1 = Some db ->
  metadata_items db = Some tbl ->
  writer_raises clk fix_invalid_dates updates = false ->
  (copy_database tool2
     (update_database_copy clk tool files db_path updates out1
        fix_invalid_dates).2 out1 out2).1 = Ok files2 ->
  database_at files2 out2
  = database_at (update_database_copy clk tool files db_path updates out1
                   fix_invalid_dates).2 out1 ->
  database_at
    (update_database_copy clk tool2
       (update_database_copy clk tool files db_path updates out1
          fix_invalid_dates).2 out1 updates out2 fix_invalid_dates).2 out2
  = database_at (update_database_copy clk tool files db_path updates out1
                   fix_invalid_dates).2 out1.
Proof.
  intros Hcopy Hdb Htbl Hr Hcopy2 Hsame.
  rewrite (update_database_copy_run _ _ _ _ _ _ _ _ _ Hcopy Hdb), Hr, Htbl
    in Hcopy2, Hsame |- *.
  cbn [snd] in Hcopy2, Hsame |- *.
  assert (Hout : database_at
            (<[out1 := Sqlite (with_table db
                 (run_statements tbl
                    (valid_statements clk fix_invalid_dates updates)))]> files1)
            out1
          = Some (with_table db
                    (run_statements tbl
                       (valid_statements clk fix_invalid_dates updates))))
    by (unfold database_at; rewrite lookup_insert_eq; reflexivity).
  rewrite Hout in Hsame |- *.
  rewrite (update_database_copy_run _ _ _ _ _ _ _ _ _ Hcopy2 Hsame), Hr.
  cbn [metadata_items with_table snd].
  unfold database_at. rewrite lookup_insert_eq.
  unfold with_table. cbn [other_content]. rewrite run_statements_idem.
  reflexivity.
Qed.

Lemma writing_twice_changes_nothing_witness :
  database_at
    (update_database_copy clock_2026 no_tool
       (update_database_copy clock_2026 no_tool example_files "/plex/library.db"
          [(1500000000, 1); (1600000000, 1)] "/out/one.db" true).2
       "/out/one.db" [(1500000000, 1); (1600000000, 1)] "/out/two.db" true).2
    "/out/two.db"
  = database_at
      (update_database_copy clock_2026 no_tool example_files "/plex/library.db"
         [(1500000000, 1); (1600000000, 1)] "/out/one.db" true).2
      "/out/one.db".
Proof.
  apply (writing_twice_changes_nothing clock_2026 no_tool no_tool example_files
           (<["/out/one.db" := Sqlite example_database]> example_files)
           (<["/out/two.db" :=
                Sqlite (with_table example_database
                          (<[1 := SqlInt 1600000000]> example_table))]>
              (update_database_copy clock_2026 no_tool example_files
                 "/plex/library.db" [(1500000000, 1); (1600000000, 1)]
                 "/out/one.db" true).2)
           "/plex/library.db" "/out/one.db" "/out/two.db"
           [(1500000000, 1); (1600000000, 1)] true example_database example_table);
    vm_compute; reflexivity.
Defined.
